(** * ch023_t5_FSDP: batch-size probe, training driver and synthetic dataset

    A shallow embedding of [sessions/session04_FSDP/ch023_t5_FSDP.py].

    Python integers are [Z].  Calls into torch / torch.distributed are
    recorded as events of a trace; the calls whose failure the script
    reacts to (building a [DataLoader], the body of the [try] block,
    one optimisation step) consult an oracle over an abstract runtime
    state, so that every pattern of successes and failures is covered.
    The [while] loop of the probe is run with fuel, because for
    [step <= 0] the Python loop need not terminate. *)

From stdpp Require Import gmap strings list.
From Stdlib Require Import ZArith Lia.

Local Open Scope string_scope.
Local Open Scope list_scope.
Local Open Scope Z_scope.

(** ** Exceptions and the substring test *)

(** A Python exception, as far as the script can observe it: its class
    name, whether it is an instance of [RuntimeError] (the class itself
    or a subclass), and [str(e)]. *)
Record exn := Exn {
  exn_class : string;
  exn_runtime : bool;
  exn_str : string
}.

(** [s.startswith(p)] *)
Fixpoint starts_with (p s : string) : bool :=
  match p, s with
  | EmptyString, _ => true
  | String _ _, EmptyString => false
  | String a p', String b s' => if Ascii.eqb a b then starts_with p' s' else false
  end.

(** [needle in hay] on Python strings. *)
Fixpoint str_contains (needle hay : string) : bool :=
  starts_with needle hay ||
  match hay with
  | EmptyString => false
  | String _ hay' => str_contains needle hay'
  end.

(** The relation the test decides: [needle] occurs inside [hay]. *)
Definition substring_of (needle hay : string) : Prop :=
  exists pre post : string, hay = pre +:+ needle +:+ post.

(** Line 81: ["CUDA out of memory" in str(e)]. *)
Definition is_oom (e : exn) : bool :=
  str_contains "CUDA out of memory" (exn_str e).

(** Lines 80-81 together: the handler is entered for instances of
    [RuntimeError] only, and breaks when the message matches. *)
Definition caught_as_oom (e : exn) : bool :=
  exn_runtime e && is_oom e.

(** ** Events, results and the monad of the script *)

(** The four messages printed by rank 0. *)
Inductive message :=
| MsgFinding
| MsgSucceeded (batch_size : Z)
| MsgFailedOOM (batch_size : Z)
| MsgStarting (batch_size : Z).

(** Calls observed in a run.  [EvAttempt] is the body of the [try]
    block (lines 70-75: [empty_cache], the first batch moved to the
    device, forward and backward), recorded with its outcome;
    [EvTrainStep] is one pass through lines 114-120.  [EvPrint] is a
    call of [print]; the progress bars that [tqdm] draws in [train],
    on every rank, are not recorded.  The set-up calls and the teardown
    are recorded as calls that return. *)
Inductive event :=
| EvInitProcessGroup (rank world_size : Z)
| EvSetDevice (rank : Z)
| EvInitializeModel (rank : Z)
| EvDummyDataset (num_samples : Z)
| EvDistributedSampler (shuffle : bool)
| EvDataLoader (batch_size : Z) (outcome : option exn)
| EvAttempt (batch_size : Z) (outcome : option exn)
| EvSGD
| EvSetEpoch (epoch : Z)
| EvTrainStep (epoch : Z) (batch : nat) (outcome : option exn)
| EvPrint (m : message)
| EvDestroyProcessGroup.

Inductive result (A : Type) :=
| Ret (a : A)
| Raise (e : exn)
| OutOfFuel.
Arguments Ret {A} a.
Arguments Raise {A} e.
Arguments OutOfFuel {A}.

Section Script.

(** The state of the runtime (devices, allocator, process group). *)
Context {W : Type}.

Record out (A : Type) := Out {
  res : result A;
  final : W;
  trace : list event
}.
Arguments Out {A} res final trace.
Arguments res {A} o.
Arguments final {A} o.
Arguments trace {A} o.

Definition M (A : Type) : Type := W -> out A.

Definition ret {A} (a : A) : M A := fun w => Out (Ret a) w [].

Definition raise {A} (e : exn) : M A := fun w => Out (Raise e) w [].

Definition out_of_fuel {A} : M A := fun w => Out OutOfFuel w [].

Definition bind {A B} (m : M A) (f : A -> M B) : M B := fun w =>
  let o := m w in
  match res o with
  | Ret a => let o' := f a (final o) in
             Out (res o') (final o') (trace o ++ trace o')
  | Raise e => Out (Raise e) (final o) (trace o)
  | OutOfFuel => Out OutOfFuel (final o) (trace o)
  end.

Notation "x <- m ;; k" := (bind m (fun x => k))
  (at level 100, m at next level, right associativity).
Notation "m ;; k" := (bind m (fun _ => k))
  (at level 100, right associativity).

(** A library call that returns normally. *)
Definition emit (ev : event) : M unit := fun w => Out (Ret tt) w [ev].

(** A library call that may raise: the oracle gives its outcome and the
    next runtime state, [ev] records the call with that outcome. *)
Definition call (ev : option exn -> event)
    (oracle : W -> option exn * W) : M unit := fun w =>
  let '(r, w') := oracle w in
  match r with
  | None => Out (Ret tt) w' [ev None]
  | Some e => Out (Raise e) w' [ev (Some e)]
  end.

(** [try: body / except BaseException as e:] reified: the exception, if
    any, is handed to the continuation. *)
Definition try {A} (m : M A) : M (A + exn) := fun w =>
  let o := m w in
  match res o with
  | Ret a => Out (Ret (inl a)) (final o) (trace o)
  | Raise e => Out (Ret (inr e)) (final o) (trace o)
  | OutOfFuel => Out OutOfFuel (final o) (trace o)
  end.

(** [if rank == 0: print(...)] *)
Definition print_rank0 (rank : Z) (m : message) : M unit :=
  if rank =? 0 then emit (EvPrint m) else ret tt.

Fixpoint for_each {A} (xs : list A) (body : A -> M unit) : M unit :=
  match xs with
  | [] => ret tt
  | x :: xs' => body x ;; for_each xs' body
  end.

(** [range(n)] *)
Definition range (n : Z) : list Z :=
  map Z.of_nat (seq 0 (Z.to_nat n)).

(** ** The oracles *)

(** [DataLoader(dataset, batch_size=b, sampler=sampler)] *)
Variable DataLoader_new : Z -> W -> option exn * W.
(** the body of the [try] block at batch size [b] *)
Variable attempt : Z -> W -> option exn * W.
(** one training step (epoch, index of the batch) *)
Variable train_step : Z -> nat -> W -> option exn * W.
(** [len(dataloader)] in [train]: world size, batch size *)
Variable num_batches : Z -> Z -> nat.

(** ** initialize_model (lines 43-47) *)
Definition initialize_model (rank : Z) : M unit :=
  emit (EvInitializeModel rank).

(** ** find_max_batch_size (lines 51-89) *)

Section Probe.

Variables (rank max_batch_size step : Z).

(** Lines 67-86.  [batch_size] and [success_batch_size] are the two
    loop variables; [break] and the exit through the loop condition
    both yield [success_batch_size] to line 88. *)
Fixpoint probe_loop (fuel : nat) (batch_size success_batch_size : Z) : M Z :=
  if batch_size <=? max_batch_size then
    match fuel with
    | O => out_of_fuel
    | S fuel' =>
        call (EvDataLoader batch_size) (DataLoader_new batch_size) ;;
        r <- try (call (EvAttempt batch_size) (attempt batch_size) ;;
                  print_rank0 rank (MsgSucceeded batch_size)) ;;
        match r with
        | inl _ => probe_loop fuel' (batch_size + step) batch_size
        | inr e =>
            if exn_runtime e then
              if is_oom e then
                print_rank0 rank (MsgFailedOOM batch_size) ;;
                ret success_batch_size
              else raise e
            else raise e
        end
    end
  else ret success_batch_size.

End Probe.

Definition find_max_batch_size (fuel : nat)
    (rank world_size start_batch_size max_batch_size step : Z) : M Z :=
  emit (EvInitProcessGroup rank world_size) ;;
  emit (EvSetDevice rank) ;;
  initialize_model rank ;;
  emit (EvDummyDataset 1000) ;;
  emit (EvDistributedSampler false) ;;
  success_batch_size <-
    probe_loop rank max_batch_size step fuel start_batch_size start_batch_size ;;
  emit EvDestroyProcessGroup ;;
  ret success_batch_size.

(** ** train (lines 93-122) *)

(** Lines 110-120: the two nested [for] loops. *)
Definition train_epochs (world_size batch_size epochs : Z) : M unit :=
  for_each (range epochs) (fun epoch =>
    emit (EvSetEpoch epoch) ;;
    for_each (seq 0 (num_batches world_size batch_size)) (fun i =>
      call (EvTrainStep epoch i) (train_step epoch i))).

Definition train (rank world_size batch_size epochs : Z) : M unit :=
  emit (EvInitProcessGroup rank world_size) ;;
  emit (EvSetDevice rank) ;;
  initialize_model rank ;;
  emit (EvDummyDataset 64000) ;;
  emit (EvDistributedSampler true) ;;
  call (EvDataLoader batch_size) (DataLoader_new batch_size) ;;
  emit EvSGD ;;
  train_epochs world_size batch_size epochs ;;
  emit EvDestroyProcessGroup.

(** ** main (lines 126-133) *)

Definition main (fuel : nat)
    (rank world_size start_batch_size max_batch_size step epochs : Z) : M unit :=
  print_rank0 rank MsgFinding ;;
  max_batch_size' <-
    find_max_batch_size fuel rank world_size start_batch_size max_batch_size step ;;
  print_rank0 rank (MsgStarting max_batch_size') ;;
  train rank world_size max_batch_size' epochs.

End Script.

Arguments out W A : clear implicits.
Arguments M W A : clear implicits.
Arguments Out {W A} res final trace.
Arguments res {W A} o.
Arguments final {W A} o.
Arguments trace {W A} o.

(** ** DummyDataset (lines 22-39) *)

(** A two-dimensional integer tensor, as the list of its rows. *)
Abbreviation tensor2 := (list (list Z)).

Record DummyDataset := {
  num_samples : Z;
  input_ids : tensor2;
  decoder_input_ids : tensor2;
  labels : tensor2
}.

Definition IndexError : exn :=
  Exn "IndexError" false "index out of range".

(** [t[idx]] for a Python integer index that fits a signed 64-bit
    integer: negative indices count from the end, anything outside
    [-n, n) raises [IndexError].  (An index beyond 64 bits is refused
    by torch before the bounds are looked at; the statements below do
    not use the function there.) *)
Definition tensor_row (t : tensor2) (idx : Z) : exn + list Z :=
  let n := Z.of_nat (length t) in
  let i := if idx <? 0 then idx + n else idx in
  if (0 <=? i) && (i <? n) then
    match t !! Z.to_nat i with
    | Some row => inr row
    | None => inl IndexError
    end
  else inl IndexError.

Section Dataset.

(** The state of torch's default random generator. *)
Context {G : Type}.

(** [torch.manual_seed(seed)] *)
Variable manual_seed : Z -> G -> G.
(** [torch.randint(low, high, size=(n, m))] *)
Variable randint : Z -> Z -> Z -> Z -> G -> (exn + tensor2) * G.

(** Lines 23-29. *)
Definition DummyDataset_init (num_samples num_tokens max_len seed : Z)
    (g : G) : (exn + DummyDataset) * G :=
  let g0 := manual_seed seed g in
  match randint 0 num_tokens num_samples max_len g0 with
  | (inl e, g1) => (inl e, g1)
  | (inr t1, g1) =>
      match randint 0 num_tokens num_samples max_len g1 with
      | (inl e, g2) => (inl e, g2)
      | (inr t2, g2) =>
          match randint 0 num_tokens num_samples max_len g2 with
          | (inl e, g3) => (inl e, g3)
          | (inr t3, g3) =>
              (inr {| num_samples := num_samples;
                      input_ids := t1;
                      decoder_input_ids := t2;
                      labels := t3 |}, g3)
          end
      end
  end.

End Dataset.

(** Lines 31-32. *)
Definition DummyDataset_len (self : DummyDataset) : Z :=
  num_samples self.

(** Lines 34-39: the dictionary is built in source order, so the first
    failing index expression is the one that raises. *)
Definition DummyDataset_getitem (self : DummyDataset) (idx : Z)
    : exn + gmap string (list Z) :=
  match tensor_row (input_ids self) idx with
  | inl e => inl e
  | inr a =>
      match tensor_row (decoder_input_ids self) idx with
      | inl e => inl e
      | inr b =>
          match tensor_row (labels self) idx with
          | inl e => inl e
          | inr c =>
              inr (<["labels" := c]>
                   (<["decoder_input_ids" := b]>
                    (<["input_ids" := a]> ∅)))
          end
      end
  end.

(** The library contract of [torch.manual_seed]: the generator state
    afterwards depends on the seed only. *)
Definition manual_seed_resets {G} (manual_seed : Z -> G -> G) : Prop :=
  forall seed g g', manual_seed seed g = manual_seed seed g'.

(** The library contract of [torch.randint]: a tensor that is returned
    has the requested shape and its entries lie in [low, high). *)
Definition randint_contract {G}
    (randint : Z -> Z -> Z -> Z -> G -> (exn + tensor2) * G) : Prop :=
  forall low high n m g t g',
    randint low high n m g = (inr t, g') ->
    0 <= n /\ 0 <= m /\
    Z.of_nat (length t) = n /\
    Forall (fun row => Z.of_nat (length row) = m /\
                       Forall (fun x => low <= x < high) row) t.

(** ** Observations on traces *)

(** The attempts of a run, in order, each with its outcome. *)
Fixpoint attempts (tr : list event) : list (Z * option exn) :=
  match tr with
  | [] => []
  | EvAttempt b r :: tr' => (b, r) :: attempts tr'
  | _ :: tr' => attempts tr'
  end.

(** The size recorded in [success_batch_size] after the given attempts,
    starting from its initial value [s0]. *)
Fixpoint last_success (s0 : Z) (atts : list (Z * option exn)) : Z :=
  match atts with
  | [] => s0
  | (b, None) :: atts' => last_success b atts'
  | (_, Some _) :: atts' => last_success s0 atts'
  end.

Definition is_destroy (ev : event) : bool :=
  match ev with EvDestroyProcessGroup => true | _ => false end.

Fixpoint count_events (p : event -> bool) (tr : list event) : nat :=
  match tr with
  | [] => O
  | ev :: tr' => (if p ev then 1 else 0)%nat + count_events p tr'
  end.

Definition is_print (ev : event) : bool :=
  match ev with EvPrint _ => true | _ => false end.

(** The calls of a run without the [print] calls. *)
Fixpoint calls (tr : list event) : list event :=
  match tr with
  | [] => []
  | ev :: tr' => if is_print ev then calls tr' else ev :: calls tr'
  end.

(** What [if rank == 0: print(m)] adds to the trace. *)
Definition printed (rank : Z) (m : message) : list event :=
  if rank =? 0 then [EvPrint m] else [].

(** Calls made between model initialisation and teardown in
    [find_max_batch_size] (lines 62-86). *)
Definition is_probe_call (ev : event) : bool :=
  match ev with
  | EvDummyDataset _ | EvDistributedSampler _
  | EvDataLoader _ _ | EvAttempt _ _ => true
  | _ => false
  end.

(** Calls made between model initialisation and teardown in [train]
    (lines 104-120). *)
Definition is_train_call (ev : event) : bool :=
  match ev with
  | EvDummyDataset _ | EvDistributedSampler _ | EvDataLoader _ _
  | EvSGD | EvSetEpoch _ | EvTrainStep _ _ _ => true
  | _ => false
  end.

(** The events of the training loops proper. *)
Definition is_epoch_event (ev : event) : Prop :=
  match ev with
  | EvSetEpoch _ | EvTrainStep _ _ _ => True
  | _ => False
  end.

(** No size larger than [r] passes the attempt: [r] is maximal among
    the sizes that fit. *)
Definition maximal_feasible {W} (attempt : Z -> W -> option exn * W)
    (r : Z) : Prop :=
  forall b w, r < b -> fst (attempt b w) <> None.

(** The sizes the probe can report: [start + k * step], [k >= 0]. *)
Definition on_grid (start step r : Z) : Prop :=
  exists k : Z, 0 <= k /\ r = start + k * step.

(** ** Concrete runtimes

    Small executable instances of the oracles and of the random
    generator, on which the script can be run. *)

Definition cuda_oom : exn :=
  Exn "OutOfMemoryError" true
      "CUDA out of memory. Tried to allocate 2.00 GiB".

Definition nccl_error : exn :=
  Exn "DistBackendError" true "NCCL error in: ProcessGroupNCCL.cpp".

Definition value_error : exn :=
  Exn "ValueError" false
      "batch_size should be a positive integer value".

(** Device memory as a threshold: sizes below [bound] fit, the others
    fail with the allocator's out-of-memory error. *)
Definition fits (bound b : Z) : bool := b <? bound.

Definition threshold_attempt (bound b : Z) (w : unit) : option exn * unit :=
  (if fits bound b then None else Some cuda_oom, w).

(** A forward pass that breaks with a communication error from size
    [bad] on. *)
Definition faulty_attempt (bad b : Z) (w : unit) : option exn * unit :=
  (if b <? bad then None else Some nccl_error, w).

Definition loader_positive (b : Z) (w : unit) : option exn * unit :=
  (if 0 <? b then None else Some value_error, w).

Definition step_ok (epoch : Z) (i : nat) (w : unit) : option exn * unit :=
  (None, w).

Definition two_batches (world_size batch_size : Z) : nat := 2%nat.

(** A linear congruential generator standing in for torch's. *)
Definition lcg_next (g : Z) : Z := (g * 1103515245 + 12345) mod 2147483648.

Definition lcg_manual_seed (seed : Z) (g : Z) : Z := seed mod 2147483648.

Fixpoint lcg_row (low high : Z) (m : nat) (g : Z) : list Z * Z :=
  match m with
  | O => ([], g)
  | S m' =>
      let g' := lcg_next g in
      let '(row, g'') := lcg_row low high m' g' in
      ((low + g' mod (high - low)) :: row, g'')
  end.

Fixpoint lcg_rows (low high : Z) (n m : nat) (g : Z) : tensor2 * Z :=
  match n with
  | O => ([], g)
  | S n' =>
      let '(row, g') := lcg_row low high m g in
      let '(rows, g'') := lcg_rows low high n' m g' in
      (row :: rows, g'')
  end.

Definition lcg_randint (low high n m : Z) (g : Z) : (exn + tensor2) * Z :=
  if (low <? high) && (0 <=? n) && (0 <=? m) then
    let '(t, g') := lcg_rows low high (Z.to_nat n) (Z.to_nat m) g in
    (inr t, g')
  else
    (inl (Exn "RuntimeError" true "invalid arguments to randint"), g).

(** ** The cache directory (lines 16-17)

    The process environment is a finite map from names to values.
    [os.getenv(name, default)] reads it, the assignment to
    [os.environ[name]] writes it. *)

Definition getenv (env : gmap string string) (name default : string) : string :=
  match env !! name with
  | Some v => v
  | None => default
  end.

(** Lines 16-17: the module constant [HF_HOME] and the environment
    after the assignment. *)
Definition setup_HF_HOME (env : gmap string string)
    : string * gmap string string :=
  let HF_HOME := getenv env "HF_HOME" "./hf_models" in
  (HF_HOME, <["HF_HOME" := HF_HOME]> env).

(** ** Further observations on traces *)

(** The exception a call ended with, for the calls that can raise. *)
Definition raised (ev : event) : option exn :=
  match ev with
  | EvDataLoader _ r | EvAttempt _ r | EvTrainStep _ _ r => r
  | _ => None
  end.

(** A run without exception handling stops at the first call that
    raises: a run that returns has no failed call, and a run that
    raises has exactly one, its last event, which raised the exception
    that escapes. *)
Definition fail_stop {W A} (o : out W A) : Prop :=
  match res o with
  | Ret _ => Forall (fun ev => raised ev = None) (trace o)
  | Raise e =>
      exists tr ev, trace o = tr ++ [ev] /\ raised ev = Some e /\
                    Forall (fun ev' => raised ev' = None) tr
  | OutOfFuel => False
  end.

Definition is_init (ev : event) : bool :=
  match ev with EvInitProcessGroup _ _ => true | _ => false end.

Definition is_train_step (ev : event) : bool :=
  match ev with EvTrainStep _ _ _ => true | _ => false end.

(** The messages printed with [print], in order. *)
Fixpoint messages (tr : list event) : list message :=
  match tr with
  | [] => []
  | EvPrint m :: tr' => m :: messages tr'
  | _ :: tr' => messages tr'
  end.

(** What rank 0 prints about an attempt that did not abort the run
    (lines 77 and 83). *)
Definition attempt_message (a : Z * option exn) : message :=
  match a with
  | (b, None) => MsgSucceeded b
  | (b, Some _) => MsgFailedOOM b
  end.

(** The calls of one iteration of the probe loop that got as far as
    its attempt: the loader was built (line 68) and the [try] body ran
    (lines 70-75). *)
Definition probe_iteration (a : Z * option exn) : list event :=
  [EvDataLoader (fst a) None; EvAttempt (fst a) (snd a)].

(** The process group as a two-state machine, replayed over a trace
    from the state [up] (is a group initialised?).  The replay fails,
    with [None], when a group is initialised while one is up, when a
    group is destroyed while none is up, or when any other library
    call is made while none is up; [print] calls are neutral. *)
Definition pg_step (up : bool) (ev : event) : option bool :=
  match ev with
  | EvInitProcessGroup _ _ => if up then None else Some true
  | EvDestroyProcessGroup => if up then Some false else None
  | EvPrint _ => Some up
  | _ => if up then Some true else None
  end.

Fixpoint pg_run (up : bool) (tr : list event) : option bool :=
  match tr with
  | [] => Some up
  | ev :: tr' =>
      match pg_step up ev with
      | Some up' => pg_run up' tr'
      | None => None
      end
  end.

(** The events of one epoch of [n] batches that all succeed, and of a
    whole training of [epochs] such epochs (lines 110-120). *)
Definition epoch_events (n : nat) (epoch : Z) : list event :=
  EvSetEpoch epoch :: map (fun i => EvTrainStep epoch i None) (seq 0 n).

Definition training_events (epochs : Z) (n : nat) : list event :=
  concat (map (epoch_events n) (range epochs)).

(** More concrete oracles: a loader that fails with the allocator's
    message from size [bad] on, and a training step that breaks at the
    first batch of epoch [bad]. *)
Definition loader_oom (bad b : Z) (w : unit) : option exn * unit :=
  (if b <? bad then None else Some cuda_oom, w).

Definition step_breaks (bad epoch : Z) (i : nat) (w : unit)
    : option exn * unit :=
  (if epoch <? bad then None else Some nccl_error, w).

(** * Properties *)

Example probe_runs_to_threshold :
  res (find_max_batch_size loader_positive (threshold_attempt 40) 100 0 2 2 512 32 tt) = Ret 34.
Proof. reflexivity. Qed.

(** ** Strings *)

Lemma starts_with_spec (p s : string) :
  starts_with p s = true <-> exists post, s = p +:+ post.
Proof.
  revert s. induction p as [|a p IH]; intros s; simpl.
  - split; [intros _; exists s; reflexivity | reflexivity].
  - destruct s as [|b s].
    + split; [discriminate | intros [post H]; discriminate].
    + destruct (Ascii.eqb_spec a b) as [->|Hne].
      * rewrite IH. split; intros [post H]; exists post.
        -- now rewrite H.
        -- now injection H.
      * split; [discriminate | intros [post H]; injection H; congruence].
Qed.

Lemma str_contains_spec (needle hay : string) :
  str_contains needle hay = true <-> substring_of needle hay.
Proof.
  unfold substring_of. induction hay as [|c hay IH]; simpl.
  - rewrite orb_false_r, starts_with_spec. split.
    + intros [post H]. exists EmptyString, post. exact H.
    + intros [pre [post H]]. destruct pre as [|? ?]; [|discriminate].
      exists post. exact H.
  - rewrite orb_true_iff, starts_with_spec, IH. split.
    + intros [[post H]|[pre [post H]]].
      * exists EmptyString, post. exact H.
      * exists (String c pre), post. simpl. now rewrite H.
    + intros [pre [post H]]. destruct pre as [|c' pre]; simpl in H.
      * left. exists post. exact H.
      * right. exists pre, post. now injection H.
Qed.

Lemma caught_as_oom_spec (e : exn) :
  caught_as_oom e = true <->
  exn_runtime e = true /\ substring_of "CUDA out of memory" (exn_str e).
Proof.
  unfold caught_as_oom, is_oom.
  now rewrite andb_true_iff, str_contains_spec.
Qed.

(** ** Observations distribute over traces *)

Lemma attempts_app (t1 t2 : list event) :
  attempts (t1 ++ t2) = attempts t1 ++ attempts t2.
Proof.
  induction t1 as [|ev t1 IH]; [reflexivity|].
  destruct ev; simpl; now rewrite IH.
Qed.

Lemma attempts_printed rank m : attempts (printed rank m) = [].
Proof. unfold printed. now destruct (rank =? 0). Qed.

Lemma count_events_app p (t1 t2 : list event) :
  count_events p (t1 ++ t2) = (count_events p t1 + count_events p t2)%nat.
Proof.
  induction t1 as [|ev t1 IH]; [reflexivity|].
  simpl. rewrite IH. lia.
Qed.

Lemma count_destroy_printed rank m : count_events is_destroy (printed rank m) = O.
Proof. unfold printed. now destruct (rank =? 0). Qed.

Lemma calls_app (t1 t2 : list event) :
  calls (t1 ++ t2) = calls t1 ++ calls t2.
Proof.
  induction t1 as [|ev t1 IH]; [reflexivity|].
  simpl. destruct (is_print ev); simpl; now rewrite IH.
Qed.

Lemma calls_printed rank m : calls (printed rank m) = [].
Proof. unfold printed. now destruct (rank =? 0). Qed.

Lemma attempts_elem (tr : list event) b r :
  (b, r) ∈ attempts tr <-> EvAttempt b r ∈ tr.
Proof.
  induction tr as [|ev tr IH]; simpl.
  - split; intros H; inversion H.
  - rewrite elem_of_cons.
    destruct ev; rewrite ?elem_of_cons, IH;
      try (split; [tauto | intros [?|?]; [discriminate | tauto]]).
    split; (intros [H|H]; [left; congruence | tauto]).
Qed.

(** ** One iteration of the probe loop *)

Section ProbeFacts.

Context {W : Type}.
Variable DataLoader_new : Z -> W -> option exn * W.
Variable attempt : Z -> W -> option exn * W.
Variables (rank max_batch_size step : Z).

Local Abbreviation loop := (probe_loop DataLoader_new attempt rank max_batch_size step).

Lemma loop_exit fuel b s (w : W) :
  max_batch_size < b -> loop fuel b s w = Out (Ret s) w [].
Proof.
  intros H. destruct fuel; simpl;
    (destruct (Z.leb_spec b max_batch_size); [lia | reflexivity]).
Qed.

Lemma loop_no_fuel b s (w : W) :
  b <= max_batch_size -> loop O b s w = Out OutOfFuel w [].
Proof.
  intros H. simpl. destruct (Z.leb_spec b max_batch_size); [reflexivity | lia].
Qed.

Lemma loop_loader_raises fuel b s (w w1 : W) e :
  b <= max_batch_size ->
  DataLoader_new b w = (Some e, w1) ->
  loop (S fuel) b s w = Out (Raise e) w1 [EvDataLoader b (Some e)].
Proof.
  intros H HL. simpl. destruct (Z.leb_spec b max_batch_size); [|lia].
  unfold bind, call. rewrite HL. reflexivity.
Qed.

Lemma loop_attempt_ok fuel b s (w w1 w2 : W) :
  b <= max_batch_size ->
  DataLoader_new b w = (None, w1) ->
  attempt b w1 = (None, w2) ->
  loop (S fuel) b s w =
    let o := loop fuel (b + step) b w2 in
    Out (res o) (final o)
        (EvDataLoader b None :: EvAttempt b None ::
         printed rank (MsgSucceeded b) ++ trace o).
Proof.
  intros H HL HA. cbn [probe_loop].
  destruct (Z.leb_spec b max_batch_size); [|lia].
  unfold bind, call, try, print_rank0, printed, emit, ret.
  rewrite HL. cbn. rewrite HA. cbn.
  destruct (rank =? 0); cbn;
    destruct (res (loop fuel (b + step) b w2)); reflexivity.
Qed.

Lemma loop_attempt_raises fuel b s (w w1 w2 : W) e :
  b <= max_batch_size ->
  DataLoader_new b w = (None, w1) ->
  attempt b w1 = (Some e, w2) ->
  loop (S fuel) b s w =
    if caught_as_oom e
    then Out (Ret s) w2
           (EvDataLoader b None :: EvAttempt b (Some e) ::
            printed rank (MsgFailedOOM b))
    else Out (Raise e) w2 [EvDataLoader b None; EvAttempt b (Some e)].
Proof.
  intros H HL HA. cbn [probe_loop].
  destruct (Z.leb_spec b max_batch_size); [|lia].
  unfold bind, call, try, print_rank0, printed, emit, ret, raise, caught_as_oom.
  rewrite HL. cbn. rewrite HA. cbn.
  destruct (exn_runtime e), (is_oom e), (rank =? 0); reflexivity.
Qed.

(** Induction along the iterations of the loop: a property of the
    outcome holds for every run once it holds at the two exits, at the
    three ways an iteration can end the loop, and is carried through a
    successful iteration. *)
Lemma loop_ind (P : nat -> Z -> Z -> W -> out W Z -> Prop) :
  (forall fuel b s w, max_batch_size < b -> P fuel b s w (Out (Ret s) w [])) ->
  (forall b s w, b <= max_batch_size -> P O b s w (Out OutOfFuel w [])) ->
  (forall fuel b s w w1 e,
      b <= max_batch_size -> DataLoader_new b w = (Some e, w1) ->
      P (S fuel) b s w (Out (Raise e) w1 [EvDataLoader b (Some e)])) ->
  (forall fuel b s w w1 w2 o,
      b <= max_batch_size -> DataLoader_new b w = (None, w1) ->
      attempt b w1 = (None, w2) ->
      o = loop fuel (b + step) b w2 ->
      P fuel (b + step) b w2 o ->
      P (S fuel) b s w
        (Out (res o) (final o)
             (EvDataLoader b None :: EvAttempt b None ::
              printed rank (MsgSucceeded b) ++ trace o))) ->
  (forall fuel b s w w1 w2 e,
      b <= max_batch_size -> DataLoader_new b w = (None, w1) ->
      attempt b w1 = (Some e, w2) -> caught_as_oom e = true ->
      P (S fuel) b s w
        (Out (Ret s) w2
             (EvDataLoader b None :: EvAttempt b (Some e) ::
              printed rank (MsgFailedOOM b)))) ->
  (forall fuel b s w w1 w2 e,
      b <= max_batch_size -> DataLoader_new b w = (None, w1) ->
      attempt b w1 = (Some e, w2) -> caught_as_oom e = false ->
      P (S fuel) b s w
        (Out (Raise e) w2 [EvDataLoader b None; EvAttempt b (Some e)])) ->
  forall fuel b s w, P fuel b s w (loop fuel b s w).
Proof.
  intros Hexit Hfuel Hload Hok Hoom Hother.
  induction fuel as [|fuel IH]; intros b s w.
  - destruct (Z_lt_le_dec max_batch_size b) as [Hb|Hb].
    + rewrite loop_exit by assumption. now apply Hexit.
    + rewrite loop_no_fuel by assumption. now apply Hfuel.
  - destruct (Z_lt_le_dec max_batch_size b) as [Hb|Hb].
    + rewrite loop_exit by assumption. now apply Hexit.
    + destruct (DataLoader_new b w) as [[e|] w1] eqn:HL.
      * rewrite (loop_loader_raises _ _ _ _ _ _ Hb HL). now apply Hload.
      * destruct (attempt b w1) as [[e|] w2] eqn:HA.
        -- rewrite (loop_attempt_raises _ _ _ _ _ _ _ Hb HL HA).
           destruct (caught_as_oom e) eqn:Hc.
           ++ eapply Hoom; eassumption.
           ++ eapply Hother; eassumption.
        -- rewrite (loop_attempt_ok _ _ _ _ _ _ Hb HL HA). cbv zeta.
           eapply Hok; try eassumption; [reflexivity | apply IH].
Qed.

(** *** Invariants of the loop *)

Lemma loop_result_grid fuel b s (w : W) v :
  res (loop fuel b s w) = Ret v ->
  v = s \/ on_grid b step v.
Proof.
  revert v. pattern fuel, b, s, w, (loop fuel b s w). apply loop_ind;
    clear fuel b s w; cbn [res]; intros; try discriminate;
    try (left; congruence).
  right. destruct (H3 v H4) as [->|(k & Hk & ->)].
  - exists 0. lia.
  - exists (k + 1). lia.
Qed.

Lemma loop_result_bound fuel b s (w : W) v :
  res (loop fuel b s w) = Ret v ->
  v = s \/ v <= max_batch_size.
Proof.
  revert v. pattern fuel, b, s, w, (loop fuel b s w). apply loop_ind;
    clear fuel b s w; cbn [res]; intros; try discriminate;
    try (left; congruence).
  right. destruct (H3 v H4) as [->|Hv]; lia.
Qed.

Lemma loop_no_teardown fuel b s (w : W) :
  count_events is_destroy (trace (loop fuel b s w)) = O.
Proof.
  pattern fuel, b, s, w, (loop fuel b s w). apply loop_ind;
    clear fuel b s w; cbn [trace]; intros; try reflexivity.
  - cbn. rewrite count_events_app, count_destroy_printed. exact H3.
  - cbn. apply count_destroy_printed.
Qed.

Lemma loop_probe_calls fuel b s (w : W) :
  Forall (fun ev => is_probe_call ev = true) (calls (trace (loop fuel b s w))).
Proof.
  pattern fuel, b, s, w, (loop fuel b s w). apply loop_ind;
    clear fuel b s w; cbn [trace]; intros; cbn;
    rewrite ?calls_app, ?calls_printed; cbn; repeat constructor; assumption.
Qed.

(** With a positive stride the loop variable passes the maximum after
    finitely many iterations. *)
Lemma loop_terminates fuel b s (w : W) :
  0 < step ->
  max_batch_size - b < Z.of_nat fuel * step ->
  res (loop fuel b s w) <> OutOfFuel.
Proof.
  intros Hstep.
  pattern fuel, b, s, w, (loop fuel b s w). apply loop_ind;
    clear fuel b s w; cbn [res]; intros; try discriminate.
  - lia.
  - apply H3. lia.
Qed.

(** An attempt that raised is the last event of the loop that matters:
    it decides the result. *)
Lemma loop_raising_attempt fuel b s (w : W) c e :
  EvAttempt c (Some e) ∈ trace (loop fuel b s w) ->
  if caught_as_oom e
  then exists v, res (loop fuel b s w) = Ret v
  else res (loop fuel b s w) = Raise e.
Proof.
  pattern fuel, b, s, w, (loop fuel b s w). apply loop_ind;
    clear fuel b s w; cbn [res trace]; intros.
  - inversion H0.
  - inversion H0.
  - apply list_elem_of_singleton in H1. discriminate.
  - rewrite !elem_of_cons, elem_of_app in H4.
    destruct H4 as [H4|[H4|[H4|H4]]]; try discriminate.
    + unfold printed in H4. destruct (rank =? 0).
      * apply list_elem_of_singleton in H4. discriminate.
      * inversion H4.
    + now apply H3.
  - rewrite !elem_of_cons in H3.
    destruct H3 as [H3|[H3|H3]]; try discriminate.
    + injection H3 as -> ->. rewrite H2. now exists s.
    + unfold printed in H3. destruct (rank =? 0).
      * apply list_elem_of_singleton in H3. discriminate.
      * inversion H3.
  - rewrite !elem_of_cons in H3.
    destruct H3 as [H3|[H3|H3]]; try discriminate.
    + injection H3 as -> ->. now rewrite H2.
    + inversion H3.
Qed.

(** *** The attempts of a run *)

Local Ltac by_iterations fuel b s w :=
  pattern fuel, b, s, w, (loop fuel b s w); apply loop_ind;
  clear fuel b s w; cbn [res trace]; intros;
  cbn [attempts] in *; rewrite ?attempts_app, ?attempts_printed in *;
  cbn [app] in *.

Lemma loop_attempt_sizes fuel b s (w : W) i c r :
  attempts (trace (loop fuel b s w)) !! i = Some (c, r) ->
  c = b + Z.of_nat i * step.
Proof.
  revert i c r. by_iterations fuel b s w; try discriminate.
  - destruct i as [|j]; cbn in H4.
    + injection H4 as <- _. lia.
    + apply H3 in H4. lia.
  - destruct i as [|[|j]]; cbn in H3; try discriminate.
    injection H3 as <- _. lia.
  - destruct i as [|[|j]]; cbn in H3; try discriminate.
    injection H3 as <- _. lia.
Qed.

Lemma loop_failure_is_last fuel b s (w : W) i c e :
  attempts (trace (loop fuel b s w)) !! i = Some (c, Some e) ->
  S i = length (attempts (trace (loop fuel b s w))).
Proof.
  revert i c e. by_iterations fuel b s w; try discriminate.
  - destruct i as [|j]; cbn in H4; [discriminate|].
    cbn. f_equal. eapply H3, H4.
  - destruct i as [|[|j]]; cbn in H3; try discriminate. reflexivity.
  - destruct i as [|[|j]]; cbn in H3; try discriminate. reflexivity.
Qed.

Lemma loop_returns_last_success fuel b s (w : W) v :
  res (loop fuel b s w) = Ret v ->
  v = last_success s (attempts (trace (loop fuel b s w))).
Proof.
  revert v. by_iterations fuel b s w; try discriminate; cbn.
  - congruence.
  - now apply H3.
  - congruence.
Qed.

(** The loop returns only through its condition or through the
    out-of-memory [break]. *)
Lemma loop_return_cause fuel b s (w : W) v :
  res (loop fuel b s w) = Ret v ->
  match last (attempts (trace (loop fuel b s w))) with
  | None => max_batch_size < b
  | Some (c, None) => max_batch_size < c + step
  | Some (c, Some e) => caught_as_oom e = true
  end.
Proof.
  revert v. by_iterations fuel b s w; try discriminate; cbn.
  - assumption.
  - specialize (H3 v H4).
    destruct (attempts (trace o)) as [|a l]; [exact H3|].
    rewrite last_cons_cons.
    destruct (last (a :: l)) as [[c [e|]]|] eqn:E; try exact H3.
    apply last_None in E. discriminate.
  - assumption.
Qed.

(** *** Memory as a threshold *)

Section Threshold.

Variables bound lo : Z.
Hypothesis step_pos : 0 < step.
Hypothesis loader_ok : forall b (w : W), lo <= b -> fst (DataLoader_new b w) = None.
Hypothesis below_fits : forall b (w : W), b < bound -> fst (attempt b w) = None.
Hypothesis above_oom : forall b (w : W), bound <= b ->
  exists e, fst (attempt b w) = Some e /\ caught_as_oom e = true.

Lemma loop_threshold fuel b s (w : W) v :
  res (loop fuel b s w) = Ret v ->
  (v = s /\ (max_batch_size < b \/ bound <= b)) \/
  (on_grid b step v /\ v < bound /\ v <= max_batch_size /\
   (max_batch_size < v + step \/ bound <= v + step)).
Proof.
  revert v. pattern fuel, b, s, w, (loop fuel b s w); apply loop_ind;
    clear fuel b s w; cbn [res]; intros; try discriminate.
  - left. split; [congruence | now left].
  - assert (Hb : b < bound).
    { destruct (Z_lt_le_dec b bound) as [Hlt|Hge]; [exact Hlt|].
      destruct (above_oom b w1 Hge) as (e & He & _).
      rewrite H1 in He. discriminate. }
    right. destruct (H3 v H4) as [[-> Hstop]|(Hg & ? & ? & ?)].
    + repeat split; try assumption. exists 0. lia.
    + repeat split; try assumption.
      destruct Hg as (k & Hk & ->). exists (k + 1). lia.
  - left. split; [congruence|]. right.
    destruct (Z_lt_le_dec b bound) as [Hlt|Hge]; [|exact Hge].
    specialize (below_fits b w1 Hlt). rewrite H1 in below_fits. discriminate.
  Qed.

Lemma loop_threshold_returns fuel b s (w : W) :
  lo <= b ->
  res (loop fuel b s w) <> OutOfFuel ->
  exists v, res (loop fuel b s w) = Ret v.
Proof.
  pattern fuel, b, s, w, (loop fuel b s w); apply loop_ind;
    clear fuel b s w; cbn [res]; intros; try congruence; eauto.
  - specialize (loader_ok b w H1). rewrite H0 in loader_ok. discriminate.
  - apply H3; [lia | assumption].
  - destruct (Z_lt_le_dec b bound) as [Hlt|Hge].
    + specialize (below_fits b w1 Hlt). rewrite H1 in below_fits. discriminate.
    + destruct (above_oom b w1 Hge) as (e' & He & Hc).
      rewrite H1 in He. cbn in He. congruence.
Qed.

End Threshold.

End ProbeFacts.

(** ** find_max_batch_size *)

Section FindMaxFacts.

Context {W : Type}.
Variable DataLoader_new : Z -> W -> option exn * W.
Variable attempt : Z -> W -> option exn * W.

Local Abbreviation find_max := (find_max_batch_size DataLoader_new attempt).
Local Abbreviation loop := (probe_loop DataLoader_new attempt).

(** The function is its loop between a fixed prologue and, on normal
    completion only, the teardown. *)
Lemma find_max_unfold fuel rank world_size start max_batch_size step (w : W) :
  find_max fuel rank world_size start max_batch_size step w =
    let o := loop rank max_batch_size step fuel start start w in
    Out (res o) (final o)
        ([EvInitProcessGroup rank world_size; EvSetDevice rank;
          EvInitializeModel rank; EvDummyDataset 1000;
          EvDistributedSampler false] ++ trace o ++
         match res o with Ret _ => [EvDestroyProcessGroup] | _ => [] end).
Proof.
  unfold find_max_batch_size, initialize_model, bind, emit, ret. cbn.
  destruct (res (loop rank max_batch_size step fuel start start w));
    cbn; rewrite ?app_nil_r; reflexivity.
Qed.

Lemma find_max_res fuel rank world_size start max_batch_size step (w : W) :
  res (find_max fuel rank world_size start max_batch_size step w) =
  res (loop rank max_batch_size step fuel start start w).
Proof. now rewrite find_max_unfold. Qed.

Lemma find_max_attempts fuel rank world_size start max_batch_size step (w : W) :
  attempts (trace (find_max fuel rank world_size start max_batch_size step w)) =
  attempts (trace (loop rank max_batch_size step fuel start start w)).
Proof.
  rewrite find_max_unfold. cbn.
  rewrite attempts_app.
  destruct (res (loop rank max_batch_size step fuel start start w));
    cbn; now rewrite app_nil_r.
Qed.

Lemma find_max_raising_attempt fuel rank world_size start max_batch_size step
    (w : W) c e :
  EvAttempt c (Some e) ∈
    trace (find_max fuel rank world_size start max_batch_size step w) ->
  EvAttempt c (Some e) ∈
    trace (loop rank max_batch_size step fuel start start w).
Proof.
  rewrite <- !attempts_elem. now rewrite find_max_attempts.
Qed.

Lemma find_max_terminates fuel rank world_size start max_batch_size step (w : W) :
  0 < step ->
  max_batch_size - start < Z.of_nat fuel * step ->
  res (find_max fuel rank world_size start max_batch_size step w) <> OutOfFuel.
Proof.
  intros Hstep Hfuel. rewrite find_max_res. now apply loop_terminates.
Qed.

(** C2: the probe is a linear search.  Read off the attempts of any
    run: the first one is at [start_batch_size]; after a successful
    attempt the next one, if the loop goes on, is [step] further; an
    attempt that fails with the out-of-memory message is the last one
    and the function returns the last successful size (the floor when
    there was none); an attempt that fails in any other way makes the
    function raise that very exception; whenever the function returns,
    it returns the last successful size; and after a successful
    attempt it returns only because the next candidate exceeds
    [max_batch_size]. *)
Theorem find_max_batch_size_linear_search
    fuel rank world_size start max_batch_size step (w : W) :
  let o := find_max fuel rank world_size start max_batch_size step w in
  let atts := attempts (trace o) in
  (forall c r, atts !! 0%nat = Some (c, r) -> c = start) /\
  (forall i c c' r',
      atts !! i = Some (c, None) -> atts !! S i = Some (c', r') ->
      c' = c + step) /\
  (forall i c e,
      atts !! i = Some (c, Some e) -> caught_as_oom e = true ->
      S i = length atts /\ res o = Ret (last_success start atts)) /\
  (forall i c e,
      atts !! i = Some (c, Some e) -> caught_as_oom e = false ->
      res o = Raise e) /\
  (forall v, res o = Ret v -> v = last_success start atts) /\
  (forall c v, last atts = Some (c, None) -> res o = Ret v ->
      max_batch_size < c + step).
Proof.
  cbv zeta. rewrite find_max_attempts, find_max_res.
  set (o := loop rank max_batch_size step fuel start start w).
  assert (Hlast : forall v, res o = Ret v ->
                            v = last_success start (attempts (trace o)))
    by apply loop_returns_last_success.
  assert (Hraise : forall i c e,
             attempts (trace o) !! i = Some (c, Some e) ->
             if caught_as_oom e then exists v, res o = Ret v
             else res o = Raise e).
  { intros i c e Hi. apply (loop_raising_attempt _ _ _ _ _ _ _ _ _ c).
    apply attempts_elem. eapply list_elem_of_lookup_2, Hi. }
  repeat split.
  - intros c r H0. apply loop_attempt_sizes in H0. lia.
  - intros i c c' r' Hi HSi.
    apply loop_attempt_sizes in Hi. apply loop_attempt_sizes in HSi. lia.
  - eapply loop_failure_is_last, H.
  - specialize (Hraise _ _ _ H). rewrite H0 in Hraise.
    destruct Hraise as [v Hv]. rewrite Hv. f_equal. now apply Hlast.
  - intros i c e Hi Hc. specialize (Hraise _ _ _ Hi). now rewrite Hc in Hraise.
  - exact Hlast.
  - intros c v Hl Hv. apply loop_return_cause in Hv.
    fold o in Hv. now rewrite Hl in Hv.
Qed.

(** C3, amended: when the floor does not exceed the maximum, a value
    returned by the probe is at most [max_batch_size]. *)
Theorem find_max_batch_size_at_most_max
    fuel rank world_size start max_batch_size step (w : W) r :
  start <= max_batch_size ->
  res (find_max_batch_size DataLoader_new attempt
         fuel rank world_size start max_batch_size step w) = Ret r ->
  r <= max_batch_size.
Proof.
  intros Hle. rewrite find_max_res. intros Hr.
  apply loop_result_bound in Hr. lia.
Qed.

(** C4: an exception raised by an attempt ends the probe with a normal
    return exactly when it is an instance of [RuntimeError] whose
    message contains "CUDA out of memory"; otherwise the function
    raises that same exception.  Hence a run that returns has had no
    attempt, at any size, that raised anything else. *)
Theorem find_max_batch_size_handles_only_oom
    fuel rank world_size start max_batch_size step (w : W) c e :
  let o := find_max fuel rank world_size start max_batch_size step w in
  EvAttempt c (Some e) ∈ trace o ->
  ((exists v, res o = Ret v) <->
   (exn_runtime e = true /\
    substring_of "CUDA out of memory" (exn_str e))) /\
  (~ (exn_runtime e = true /\
      substring_of "CUDA out of memory" (exn_str e)) ->
   res o = Raise e).
Proof.
  cbv zeta. intros Hin.
  apply find_max_raising_attempt, loop_raising_attempt in Hin.
  rewrite find_max_res, <- caught_as_oom_spec.
  destruct (caught_as_oom e).
  - split; [tauto | intros Hn; now destruct Hn].
  - rewrite Hin. split; [|reflexivity].
    split; [intros [v Hv]; discriminate | discriminate].
Qed.

(** C9: a value returned by the probe is [start_batch_size + k * step]
    for some integer [k >= 0]. *)
Theorem find_max_batch_size_on_grid
    fuel rank world_size start max_batch_size step (w : W) r :
  res (find_max_batch_size DataLoader_new attempt
         fuel rank world_size start max_batch_size step w) = Ret r ->
  on_grid start step r.
Proof.
  rewrite find_max_res. intros Hr.
  apply loop_result_grid in Hr. destruct Hr as [->|Hg]; [|exact Hg].
  exists 0. lia.
Qed.

End FindMaxFacts.

(** ** train and main *)

Lemma count_events_none p (tr : list event) :
  Forall (fun ev => p ev = false) tr -> count_events p tr = O.
Proof.
  induction 1 as [|ev tr Hev _ IH]; [reflexivity|].
  simpl. now rewrite Hev, IH.
Qed.

Lemma calls_without_print (tr : list event) :
  Forall (fun ev => is_print ev = false) tr -> calls tr = tr.
Proof.
  induction 1 as [|ev tr Hev _ IH]; [reflexivity|].
  simpl. now rewrite Hev, IH.
Qed.

Section TrainFacts.

Context {W : Type}.
Variable DataLoader_new : Z -> W -> option exn * W.
Variable attempt : Z -> W -> option exn * W.
Variable train_step : Z -> nat -> W -> option exn * W.
Variable num_batches : Z -> Z -> nat.

Local Abbreviation find_max := (find_max_batch_size DataLoader_new attempt).
Local Abbreviation epochs_of := (train_epochs train_step num_batches).
Local Abbreviation train_of := (train DataLoader_new train_step num_batches).
Local Abbreviation main_of :=
  (main DataLoader_new attempt train_step num_batches).

Lemma bind_trace_Forall {A B} (P : event -> Prop)
    (m : M W A) (f : A -> M W B) (w : W) :
  Forall P (trace (m w)) ->
  (forall a w', Forall P (trace (f a w'))) ->
  Forall P (trace (bind m f w)).
Proof.
  intros Hm Hf. unfold bind. destruct (res (m w)); cbn; try assumption.
  apply Forall_app. split; [assumption | apply Hf].
Qed.

Lemma for_each_trace_Forall {A} (P : event -> Prop)
    (xs : list A) (body : A -> M W unit) (w : W) :
  (forall x w', Forall P (trace (body x w'))) ->
  Forall P (trace (for_each xs body w)).
Proof.
  intros Hbody. revert w. induction xs as [|x xs IH]; intros w; cbn.
  - constructor.
  - apply bind_trace_Forall; [apply Hbody | intros _ w'; apply IH].
Qed.

Lemma call_trace_Forall (P : event -> Prop) ev oracle (w : W) :
  (forall r, P (ev r)) -> Forall P (trace (call ev oracle w)).
Proof.
  intros H. unfold call. destruct (oracle w) as [[e|] w'];
    cbn; repeat constructor; apply H.
Qed.

Lemma train_epochs_events world_size batch_size epochs (w : W) :
  Forall is_epoch_event (trace (epochs_of world_size batch_size epochs w)).
Proof.
  unfold train_epochs. apply for_each_trace_Forall. intros epoch w'.
  apply bind_trace_Forall; [repeat constructor|]. intros _ w''.
  apply for_each_trace_Forall. intros i w3.
  apply call_trace_Forall. intros r. exact I.
Qed.

Lemma train_unfold rank world_size batch_size epochs (w : W) :
  train_of rank world_size batch_size epochs w =
    let pre := [EvInitProcessGroup rank world_size; EvSetDevice rank;
                EvInitializeModel rank; EvDummyDataset 64000;
                EvDistributedSampler true] in
    match DataLoader_new batch_size w with
    | (Some e, w1) =>
        Out (Raise e) w1 (pre ++ [EvDataLoader batch_size (Some e)])
    | (None, w1) =>
        let o := epochs_of world_size batch_size epochs w1 in
        Out (res o) (final o)
            (pre ++ [EvDataLoader batch_size None; EvSGD] ++ trace o ++
             match res o with Ret _ => [EvDestroyProcessGroup] | _ => [] end)
    end.
Proof.
  unfold train, initialize_model, bind, emit, call. cbn.
  destruct (DataLoader_new batch_size w) as [[e|] w1]; cbn; [reflexivity|].
  destruct (res (epochs_of world_size batch_size epochs w1)) as [[]| |];
    cbn; rewrite ?app_nil_r; reflexivity.
Qed.

Lemma main_unfold fuel rank world_size start max_batch_size step epochs (w : W) :
  main_of fuel rank world_size start max_batch_size step epochs w =
    let o1 := find_max fuel rank world_size start max_batch_size step w in
    match res o1 with
    | Ret v =>
        let o2 := train_of rank world_size v epochs (final o1) in
        Out (res o2) (final o2)
            (printed rank MsgFinding ++ trace o1 ++
             printed rank (MsgStarting v) ++ trace o2)
    | Raise e => Out (Raise e) (final o1) (printed rank MsgFinding ++ trace o1)
    | OutOfFuel => Out OutOfFuel (final o1) (printed rank MsgFinding ++ trace o1)
    end.
Proof.
  unfold main, print_rank0, printed, bind, emit, ret.
  destruct (rank =? 0); cbn;
    destruct (res (find_max fuel rank world_size start max_batch_size step w));
    cbn; try reflexivity;
    match goal with
    | |- context [res ?o] => destruct (res o); reflexivity
    end.
Qed.

Lemma train_epochs_no_teardown world_size batch_size epochs (w : W) :
  count_events is_destroy (trace (epochs_of world_size batch_size epochs w)) = O.
Proof.
  apply count_events_none.
  eapply Forall_impl; [apply train_epochs_events|].
  intros [] H; solve [reflexivity | destruct H].
Qed.

(** C6: teardown happens on the success path only.  In a run of
    [find_max_batch_size] and in a run of [train] the process group is
    destroyed once when the function returns and not at all when it
    raises; a probe stopped by the out-of-memory [break] is among the
    runs that destroy it once. *)
Theorem teardown_on_success_only
    fuel rank world_size start max_batch_size step batch_size epochs (w : W) :
  let p := find_max fuel rank world_size start max_batch_size step w in
  let t := train_of rank world_size batch_size epochs w in
  count_events is_destroy (trace p) =
    match res p with Ret _ => 1%nat | _ => 0%nat end /\
  count_events is_destroy (trace t) =
    match res t with Ret _ => 1%nat | _ => 0%nat end /\
  (forall c e, EvAttempt c (Some e) ∈ trace p -> caught_as_oom e = true ->
     count_events is_destroy (trace p) = 1%nat).
Proof.
  cbv zeta.
  assert (Hp : count_events is_destroy
                 (trace (find_max fuel rank world_size start max_batch_size step w)) =
               match res (find_max fuel rank world_size start max_batch_size step w)
               with Ret _ => 1%nat | _ => 0%nat end).
  { rewrite find_max_unfold. cbn.
    rewrite count_events_app, loop_no_teardown.
    now destruct (res (probe_loop _ _ _ _ _ _ _ _ _)). }
  split; [exact Hp|]. split.
  - rewrite train_unfold. cbv zeta.
    destruct (DataLoader_new batch_size w) as [[e|] w1]; [reflexivity|].
    cbn. rewrite count_events_app, train_epochs_no_teardown.
    now destruct (res (epochs_of _ _ _ _)).
  - intros c e Hin Hc. rewrite Hp.
    apply find_max_raising_attempt, loop_raising_attempt in Hin.
    rewrite Hc in Hin. destruct Hin as [v Hv].
    now rewrite find_max_res, Hv.
Qed.

(** C10: when the loop is entered and the first attempt fails with the
    out-of-memory error, [find_max_batch_size] returns the floor
    [start_batch_size] although the only attempt of the run failed, and
    [main] goes on to announce and run [train] with that size. *)
Theorem first_attempt_oom_returns_floor
    fuel rank world_size start max_batch_size step epochs (w w1 w2 : W) e :
  start <= max_batch_size ->
  DataLoader_new start w = (None, w1) ->
  attempt start w1 = (Some e, w2) ->
  caught_as_oom e = true ->
  let p := find_max (S fuel) rank world_size start max_batch_size step w in
  res p = Ret start /\
  attempts (trace p) = [(start, Some e)] /\
  main_of (S fuel) rank world_size start max_batch_size step epochs w =
    let t := train_of rank world_size start epochs (final p) in
    Out (res t) (final t)
        (printed rank MsgFinding ++ trace p ++
         printed rank (MsgStarting start) ++ trace t).
Proof.
  intros Hle HL HA Hc. cbv zeta.
  assert (Hres : res (find_max (S fuel) rank world_size start max_batch_size
                        step w) = Ret start).
  { rewrite find_max_res, (loop_attempt_raises _ _ _ _ _ _ _ _ _ _ _ _ Hle HL HA).
    now rewrite Hc. }
  split; [exact Hres|]. split.
  - rewrite find_max_attempts,
      (loop_attempt_raises _ _ _ _ _ _ _ _ _ _ _ _ Hle HL HA), Hc.
    cbn. now rewrite attempts_printed.
  - rewrite main_unfold. cbv zeta. now rewrite Hres.
Qed.

End TrainFacts.

(** ** DummyDataset *)

Lemma tensor_row_in_range (t : tensor2) (idx : Z) :
  0 <= idx < Z.of_nat (length t) ->
  exists row, tensor_row t idx = inr row /\ t !! Z.to_nat idx = Some row.
Proof.
  intros Hidx. unfold tensor_row.
  destruct (Z.ltb_spec idx 0) as [?|_]; [lia|].
  destruct (Z.leb_spec 0 idx) as [_|?]; [|lia].
  destruct (Z.ltb_spec idx (Z.of_nat (length t))) as [_|?]; [|lia].
  cbn. destruct (lookup_lt_is_Some_2 t (Z.to_nat idx)) as [row Hrow]; [lia|].
  rewrite Hrow. now exists row.
Qed.

Section DatasetFacts.

Context {G : Type}.
Variable manual_seed : Z -> G -> G.
Variable randint : Z -> Z -> Z -> Z -> G -> (exn + tensor2) * G.

Local Abbreviation init := (DummyDataset_init manual_seed randint).

(** C5: the dataset is a function of the seed and the three sizes.
    Whatever the state of the default generator before the call, two
    constructions with the same arguments give the same result, hence
    the same three tensors and the same dictionary at every index. *)
Theorem DummyDataset_deterministic
    num_samples num_tokens max_len seed (g g' : G) :
  manual_seed_resets manual_seed ->
  init num_samples num_tokens max_len seed g =
    init num_samples num_tokens max_len seed g' /\
  forall ds ds',
    fst (init num_samples num_tokens max_len seed g) = inr ds ->
    fst (init num_samples num_tokens max_len seed g') = inr ds' ->
    input_ids ds = input_ids ds' /\
    decoder_input_ids ds = decoder_input_ids ds' /\
    labels ds = labels ds' /\
    forall idx, DummyDataset_getitem ds idx = DummyDataset_getitem ds' idx.
Proof.
  intros Hseed.
  assert (Heq : init num_samples num_tokens max_len seed g =
                init num_samples num_tokens max_len seed g').
  { unfold DummyDataset_init. now rewrite (Hseed seed g g'). }
  split; [exact Heq|].
  intros ds ds' Hds Hds'. rewrite Heq, Hds' in Hds.
  injection Hds as ->. auto.
Qed.

(** C8: a dataset that was constructed reports [num_samples] as its
    length, and at every index from 0 up to [num_samples - 1] the item
    is a dictionary with exactly the keys input_ids, decoder_input_ids
    and labels, each bound to [max_len] integers of [0, num_tokens). *)
Theorem DummyDataset_shapes
    num_samples num_tokens max_len seed (g g' : G) ds :
  randint_contract randint ->
  init num_samples num_tokens max_len seed g = (inr ds, g') ->
  DummyDataset_len ds = num_samples /\
  forall idx, 0 <= idx < num_samples ->
    exists d : gmap string (list Z),
      DummyDataset_getitem ds idx = inr d /\
      dom d = ({["input_ids"; "decoder_input_ids"; "labels"]} : gset string) /\
      forall key (t : list Z), d !! key = Some t ->
        Z.of_nat (length t) = max_len /\
        Forall (fun x => 0 <= x < num_tokens) t.
Proof.
  intros Hrand Hinit. unfold DummyDataset_init in Hinit.
  destruct (randint 0 num_tokens num_samples max_len (manual_seed seed g))
    as [[e1|t1] g1] eqn:H1; [discriminate|].
  destruct (randint 0 num_tokens num_samples max_len g1)
    as [[e2|t2] g2] eqn:H2; [discriminate|].
  destruct (randint 0 num_tokens num_samples max_len g2)
    as [[e3|t3] g3] eqn:H3; [discriminate|].
  injection Hinit as <- _.
  apply Hrand in H1, H2, H3.
  destruct H1 as (_ & _ & Hn1 & Hr1), H2 as (_ & _ & Hn2 & Hr2),
           H3 as (_ & _ & Hn3 & Hr3).
  split; [reflexivity|].
  intros idx Hidx. unfold DummyDataset_getitem. cbn.
  destruct (tensor_row_in_range t1 idx) as (r1 & -> & Hl1); [lia|].
  destruct (tensor_row_in_range t2 idx) as (r2 & -> & Hl2); [lia|].
  destruct (tensor_row_in_range t3 idx) as (r3 & -> & Hl3); [lia|].
  eexists. split; [reflexivity|]. split.
  - rewrite !dom_insert_L, dom_empty_L. set_solver.
  - intros key t Hkey.
    rewrite Forall_lookup in Hr1, Hr2, Hr3.
    apply lookup_insert_Some in Hkey as [[_ <-]|[_ Hkey]];
      [exact (Hr3 _ _ Hl3)|].
    apply lookup_insert_Some in Hkey as [[_ <-]|[_ Hkey]];
      [exact (Hr2 _ _ Hl2)|].
    apply lookup_insert_Some in Hkey as [[_ <-]|[_ Hkey]];
      [exact (Hr1 _ _ Hl1)|].
    rewrite lookup_empty in Hkey. discriminate.
Qed.

End DatasetFacts.

(** The stand-in generator honours the two library contracts. *)

Lemma lcg_manual_seed_resets : manual_seed_resets lcg_manual_seed.
Proof. intros seed g g'. reflexivity. Qed.

Lemma lcg_row_spec low high m g :
  low < high ->
  length (fst (lcg_row low high m g)) = m /\
  Forall (fun x => low <= x < high) (fst (lcg_row low high m g)).
Proof.
  intros Hlh. revert g. induction m as [|m IH]; intros g; cbn.
  - split; [reflexivity | constructor].
  - destruct (lcg_row low high m (lcg_next g)) as [row g''] eqn:E.
    specialize (IH (lcg_next g)). rewrite E in IH. cbn in *.
    destruct IH as [IHlen IHall]. split; [now rewrite IHlen|].
    constructor; [|exact IHall].
    pose proof (Z.mod_pos_bound (lcg_next g) (high - low)). lia.
Qed.

Lemma lcg_rows_spec low high n m g :
  low < high ->
  length (fst (lcg_rows low high n m g)) = n /\
  Forall (fun row => length row = m /\ Forall (fun x => low <= x < high) row)
         (fst (lcg_rows low high n m g)).
Proof.
  intros Hlh. revert g. induction n as [|n IH]; intros g; cbn.
  - split; [reflexivity | constructor].
  - pose proof (lcg_row_spec low high m g Hlh) as Hrow.
    destruct (lcg_row low high m g) as [row g1].
    specialize (IH g1).
    destruct (lcg_rows low high n m g1) as [rows g2]. cbn in *.
    destruct IH as [IHlen IHall]. split; [now rewrite IHlen|].
    constructor; assumption.
Qed.

Lemma lcg_randint_contract : randint_contract lcg_randint.
Proof.
  intros low high n m g t g' H. unfold lcg_randint in H.
  destruct (Z.ltb_spec low high) as [Hlh|?]; [|discriminate].
  destruct (Z.leb_spec 0 n) as [Hn|?]; [|discriminate].
  destruct (Z.leb_spec 0 m) as [Hm|?]; [|discriminate].
  cbn in H.
  pose proof (lcg_rows_spec low high (Z.to_nat n) (Z.to_nat m) g Hlh) as Hs.
  destruct (lcg_rows low high (Z.to_nat n) (Z.to_nat m) g) as [rows g1].
  injection H as <- _. cbn in Hs. destruct Hs as [Hlen Hall].
  repeat split; try assumption; [lia|].
  eapply Forall_impl; [exact Hall|].
  intros row [Hrl Hrx]. split; [lia | exact Hrx].
Qed.

(** * The script on concrete runtimes *)

Lemma loader_positive_ok lo :
  0 < lo -> forall b w, lo <= b -> fst (loader_positive b w) = None.
Proof.
  intros Hlo b w Hb. unfold loader_positive.
  destruct (Z.ltb_spec 0 b); [reflexivity | lia].
Qed.

Lemma threshold_below bound :
  forall b w, b < bound -> fst (threshold_attempt bound b w) = None.
Proof.
  intros b w Hb. unfold threshold_attempt, fits.
  destruct (Z.ltb_spec b bound); [reflexivity | lia].
Qed.

Lemma threshold_above bound :
  forall b w, bound <= b ->
    exists e, fst (threshold_attempt bound b w) = Some e /\
              caught_as_oom e = true.
Proof.
  intros b w Hb. exists cuda_oom. unfold threshold_attempt, fits.
  destruct (Z.ltb_spec b bound); [lia | split; reflexivity].
Qed.

(** C1 as stated fails.  With the default arguments (floor 1, maximum
    1024, stride 16) and memory for sizes below 10, the probe returns 1,
    yet size 2 fits: 1 is not maximal among the feasible sizes. *)
Lemma probe_result_not_maximal :
  (forall b w, b < 10 -> fst (threshold_attempt 10 b w) = None) /\
  (forall b w, 10 <= b ->
     exists e, fst (threshold_attempt 10 b w) = Some e /\
               caught_as_oom e = true) /\
  res (find_max_batch_size loader_positive (threshold_attempt 10)
         100 0 2 1 1024 16 tt) = Ret 1 /\
  ~ maximal_feasible (threshold_attempt 10) 1.
Proof.
  split; [apply threshold_below|]. split; [apply threshold_above|].
  split; [reflexivity|].
  intros H. apply (H 2 tt); [lia | reflexivity].
Qed.

Lemma find_max_batch_size_linear_search_witness :
  let o := find_max_batch_size loader_positive (threshold_attempt 40)
             100 0 2 2 512 32 tt in
  3%nat = length (attempts (trace o)) /\
  res o = Ret (last_success 2 (attempts (trace o))).
Proof.
  destruct (find_max_batch_size_linear_search
              loader_positive (threshold_attempt 40) 100 0 2 2 512 32 tt)
    as (_ & _ & H & _).
  apply (H 2%nat 66 cuda_oom); reflexivity.
Defined.

(** C3 as stated fails.  With a floor above the maximum the loop is
    never entered and the floor itself is returned. *)
Lemma probe_result_above_max :
  res (find_max_batch_size loader_positive (threshold_attempt 40)
         100 0 2 2000 1024 16 tt) = Ret 2000 /\
  ~ (2000 <= 1024).
Proof. split; [reflexivity | lia]. Qed.

Lemma find_max_batch_size_at_most_max_witness :
  2 <= 512 /\
  res (find_max_batch_size loader_positive (threshold_attempt 40)
         100 0 2 2 512 32 tt) = Ret 34 /\
  34 <= 512.
Proof.
  split; [lia|]. split; [reflexivity|].
  apply (find_max_batch_size_at_most_max
           loader_positive (threshold_attempt 40) 100 0 2 2 512 32 tt 34);
    [lia | reflexivity].
Defined.

Lemma find_max_batch_size_handles_only_oom_witness :
  let o := find_max_batch_size loader_positive (faulty_attempt 40)
             100 0 2 2 512 32 tt in
  ((exists v, res o = Ret v) <->
   (exn_runtime nccl_error = true /\
    substring_of "CUDA out of memory" (exn_str nccl_error))) /\
  (~ (exn_runtime nccl_error = true /\
      substring_of "CUDA out of memory" (exn_str nccl_error)) ->
   res o = Raise nccl_error).
Proof.
  apply (find_max_batch_size_handles_only_oom
           loader_positive (faulty_attempt 40) 100 0 2 2 512 32 tt 66 nccl_error).
  apply (list_elem_of_lookup_2 _ 12%nat). reflexivity.
Defined.

Lemma find_max_batch_size_on_grid_witness :
  res (find_max_batch_size loader_positive (threshold_attempt 40)
         100 0 2 2 512 32 tt) = Ret 34 /\
  on_grid 2 32 34.
Proof.
  split; [reflexivity|].
  apply (find_max_batch_size_on_grid
           loader_positive (threshold_attempt 40) 100 0 2 2 512 32 tt 34).
  reflexivity.
Defined.

Lemma teardown_on_success_only_witness :
  count_events is_destroy
    (trace (find_max_batch_size loader_positive (threshold_attempt 40)
              100 0 2 2 512 32 tt)) = 1%nat.
Proof.
  destruct (teardown_on_success_only
              loader_positive (threshold_attempt 40) step_ok two_batches
              100 0 2 2 512 32 34 5 tt) as (_ & _ & H).
  apply (H 66 cuda_oom); [|reflexivity].
  apply (list_elem_of_lookup_2 _ 12%nat). reflexivity.
Defined.

Lemma first_attempt_oom_returns_floor_witness :
  let p := find_max_batch_size loader_positive (threshold_attempt 1)
             1 0 2 2 512 32 tt in
  res p = Ret 2 /\
  attempts (trace p) = [(2, Some cuda_oom)] /\
  main loader_positive (threshold_attempt 1) step_ok two_batches
       1 0 2 2 512 32 5 tt =
    let t := train loader_positive step_ok two_batches 0 2 2 5 (final p) in
    Out (res t) (final t)
        (printed 0 MsgFinding ++ trace p ++
         printed 0 (MsgStarting 2) ++ trace t).
Proof.
  apply (first_attempt_oom_returns_floor
           loader_positive (threshold_attempt 1) step_ok two_batches
           0%nat 0 2 2 512 32 5 tt tt tt cuda_oom);
    [lia | reflexivity | reflexivity | reflexivity].
Defined.

Lemma DummyDataset_deterministic_witness :
  DummyDataset_init lcg_manual_seed lcg_randint 2 5 3 42 0 =
    DummyDataset_init lcg_manual_seed lcg_randint 2 5 3 42 7 /\
  forall ds ds',
    fst (DummyDataset_init lcg_manual_seed lcg_randint 2 5 3 42 0) = inr ds ->
    fst (DummyDataset_init lcg_manual_seed lcg_randint 2 5 3 42 7) = inr ds' ->
    input_ids ds = input_ids ds' /\
    decoder_input_ids ds = decoder_input_ids ds' /\
    labels ds = labels ds' /\
    forall idx, DummyDataset_getitem ds idx = DummyDataset_getitem ds' idx.
Proof.
  apply (DummyDataset_deterministic lcg_manual_seed lcg_randint 2 5 3 42 0 7).
  apply lcg_manual_seed_resets.
Defined.

Lemma DummyDataset_shapes_witness :
  exists ds g',
    DummyDataset_init lcg_manual_seed lcg_randint 2 5 3 42 0 = (inr ds, g') /\
    DummyDataset_len ds = 2 /\
    forall idx, 0 <= idx < 2 ->
      exists d : gmap string (list Z),
        DummyDataset_getitem ds idx = inr d /\
        dom d = ({["input_ids"; "decoder_input_ids"; "labels"]} : gset string) /\
        forall key (t : list Z), d !! key = Some t ->
          Z.of_nat (length t) = 3 /\
          Forall (fun x => 0 <= x < 5) t.
Proof.
  eexists. eexists. split; [vm_compute; reflexivity|].
  eapply (DummyDataset_shapes lcg_manual_seed lcg_randint 2 5 3 42 0).
  - apply lcg_randint_contract.
  - vm_compute. reflexivity.
Defined.

(** * Further properties of the probe *)

Section ProbeMore.

Context {W : Type}.
Variable DataLoader_new : Z -> W -> option exn * W.
Variable attempt : Z -> W -> option exn * W.
Variables (rank max_batch_size step : Z).

Local Abbreviation loop :=
  (probe_loop DataLoader_new attempt rank max_batch_size step).

Local Ltac along_loop fuel b s w :=
  pattern fuel, b, s, w, (loop fuel b s w); apply loop_ind;
  clear fuel b s w; cbn [res trace]; intros;
  cbn [attempts] in *; rewrite ?attempts_app, ?attempts_printed in *;
  cbn [app] in *.

Lemma loop_attempt_below_max fuel b s (w : W) c r :
  (c, r) ∈ attempts (trace (loop fuel b s w)) -> c <= max_batch_size.
Proof.
  revert c r. along_loop fuel b s w;
    repeat match goal with
    | H : _ ∈ [] |- _ => inversion H
    | H : _ ∈ _ :: _ |- _ => apply elem_of_cons in H; destruct H as [H|H]
    | H : (_, _) = (_, _) |- _ => injection H as -> ->
    end; eauto.
Qed.

Lemma loop_attempt_above_floor fuel b s (w : W) c r :
  0 <= step ->
  (c, r) ∈ attempts (trace (loop fuel b s w)) -> b <= c.
Proof.
  intros Hstep. revert c r. along_loop fuel b s w;
    repeat match goal with
    | H : _ ∈ [] |- _ => inversion H
    | H : _ ∈ _ :: _ |- _ => apply elem_of_cons in H; destruct H as [H|H]
    | H : (_, _) = (_, _) |- _ => injection H as -> ->
    end; try lia.
  apply H3 in H4. lia.
Qed.

Lemma loop_loader_failure fuel b s (w : W) c e :
  EvDataLoader c (Some e) ∈ trace (loop fuel b s w) ->
  res (loop fuel b s w) = Raise e.
Proof.
  pattern fuel, b, s, w, (loop fuel b s w); apply loop_ind;
    clear fuel b s w; cbn [res trace]; intros;
    repeat match goal with
    | H : _ ∈ [] |- _ => inversion H
    | H : _ ∈ _ ++ _ |- _ => apply elem_of_app in H; destruct H as [H|H]
    | H : _ ∈ _ :: _ |- _ => apply elem_of_cons in H; destruct H as [H|H]
    | H : _ ∈ printed _ _ |- _ =>
        unfold printed in H; destruct (rank =? 0)
    end; try discriminate; try congruence; eauto.
Qed.

(** The size that is returned was tried with success, unless nothing
    succeeded and it is the initial value. *)
Lemma loop_result_verified fuel b s (w : W) v :
  res (loop fuel b s w) = Ret v ->
  (v, None) ∈ attempts (trace (loop fuel b s w)) \/
  (v = s /\ forall c, (c, None) ∉ attempts (trace (loop fuel b s w))).
Proof.
  revert v. along_loop fuel b s w; try discriminate.
  - right. split; [congruence|]. intros c Hc. inversion Hc.
  - left. destruct (H3 v H4) as [Hin|[-> _]].
    + now apply elem_of_cons; right.
    + apply elem_of_cons; now left.
  - right. split; [congruence|]. intros c Hc.
    apply list_elem_of_singleton in Hc. discriminate.
Qed.

(** With a stride that is not positive the candidate never passes the
    maximum: as long as loaders and attempts succeed the loop goes on. *)
Lemma loop_diverges start fuel b s (w : W) j :
  step <= 0 -> start <= max_batch_size ->
  (forall k w', 0 <= k -> fst (DataLoader_new (start + k * step) w') = None) ->
  (forall k w', 0 <= k -> fst (attempt (start + k * step) w') = None) ->
  0 <= j -> b = start + j * step ->
  res (loop fuel b s w) = OutOfFuel.
Proof.
  intros Hstep Hle HL HA. revert j.
  pattern fuel, b, s, w, (loop fuel b s w); apply loop_ind;
    clear fuel b s w; cbn [res]; intros.
  - nia.
  - reflexivity.
  - subst b. specialize (HL j w H1). rewrite H0 in HL. discriminate.
  - apply (H3 (j + 1)); lia.
  - subst b. specialize (HA j w1 H3). rewrite H1 in HA. discriminate.
  - subst b. specialize (HA j w1 H3). rewrite H1 in HA. discriminate.
Qed.

(** Under a memory threshold: a loop entered at a size that fits
    returns a size it has tried with success, and a loop that starts at
    a size that does not fit, or above the maximum, returns its initial
    value. *)
Lemma loop_threshold_verified bound fuel b s (w : W) v :
  (forall b' w', b' < bound -> fst (attempt b' w') = None) ->
  res (loop fuel b s w) = Ret v ->
  b < bound -> b <= max_batch_size ->
  (v, None) ∈ attempts (trace (loop fuel b s w)).
Proof.
  intros Hfit. revert v.
  pattern fuel, b, s, w, (loop fuel b s w); apply loop_ind;
    clear fuel b s w; cbn [res trace]; intros; try discriminate; try lia.
  - cbn [attempts]. rewrite attempts_app, attempts_printed. cbn [app].
    subst o. apply elem_of_cons.
    destruct (loop_result_verified _ _ _ _ _ H4) as [Hin|[-> _]];
      [now right | now left].
  - specialize (Hfit b w1 H4). rewrite H1 in Hfit. discriminate.
Qed.

Lemma loop_threshold_floor bound fuel b s (w : W) v :
  (forall b' w', bound <= b' ->
     exists e, fst (attempt b' w') = Some e /\ caught_as_oom e = true) ->
  res (loop fuel b s w) = Ret v ->
  bound <= b \/ max_batch_size < b ->
  v = s.
Proof.
  intros Hoom. revert v.
  pattern fuel, b, s, w, (loop fuel b s w); apply loop_ind;
    clear fuel b s w; cbn [res]; intros; try discriminate; try congruence.
  destruct H5 as [Hb|Hb]; [|lia].
  destruct (Hoom b w1 Hb) as (e & He & _). rewrite H1 in He. discriminate.
Qed.

(** A loop that returns has built a loader and made an attempt in
    each of its iterations, and nothing else. *)
Lemma loop_calls_returned fuel b s (w : W) v :
  res (loop fuel b s w) = Ret v ->
  calls (trace (loop fuel b s w)) =
    concat (map probe_iteration (attempts (trace (loop fuel b s w)))).
Proof.
  revert v. along_loop fuel b s w; try discriminate; cbn;
    rewrite ?calls_app, ?calls_printed; cbn; try reflexivity.
  f_equal. f_equal. eapply H3, H4.
Qed.

(** The outcome recorded for an attempt is the one the runtime gave. *)
Lemma loop_attempt_outcome fuel b s (w : W) c r :
  (c, r) ∈ attempts (trace (loop fuel b s w)) ->
  exists w', fst (attempt c w') = r.
Proof.
  revert c r. along_loop fuel b s w;
    repeat match goal with
    | H : _ ∈ [] |- _ => inversion H
    | H : _ ∈ _ :: _ |- _ => apply elem_of_cons in H; destruct H as [H|H]
    | H : (_, _) = (_, _) |- _ => injection H as -> ->
    end; eauto;
    match goal with
    | H : attempt ?b ?w1 = (_, _) |- _ => exists w1; now rewrite H
    end.
Qed.

(** The [print] calls of the loop. *)
Lemma loop_silent fuel b s (w : W) :
  rank <> 0 ->
  Forall (fun ev => is_print ev = false) (trace (loop fuel b s w)).
Proof.
  intros Hrank.
  assert (Hp : forall m, printed rank m = []).
  { intros m. unfold printed. destruct (Z.eqb_spec rank 0); [lia|reflexivity]. }
  pattern fuel, b, s, w, (loop fuel b s w); apply loop_ind;
    clear fuel b s w; cbn [trace]; intros; rewrite ?Hp;
    repeat constructor; assumption.
Qed.

Lemma loop_messages fuel b s (w : W) v :
  rank = 0 ->
  res (loop fuel b s w) = Ret v ->
  messages (trace (loop fuel b s w)) =
    map attempt_message (attempts (trace (loop fuel b s w))).
Proof.
  intros Hrank.
  assert (Hp : forall m, printed rank m = [EvPrint m]).
  { intros m. unfold printed. now rewrite Hrank. }
  revert v.
  pattern fuel, b, s, w, (loop fuel b s w); apply loop_ind;
    clear fuel b s w; cbn [res trace]; intros; try discriminate;
    rewrite ?Hp; cbn; try reflexivity.
  f_equal. eapply H3, H4.
Qed.

End ProbeMore.

Lemma messages_app (t1 t2 : list event) :
  messages (t1 ++ t2) = messages t1 ++ messages t2.
Proof.
  induction t1 as [|ev t1 IH]; [reflexivity|].
  destruct ev; simpl; now rewrite IH.
Qed.

Section FindMaxMore.

Context {W : Type}.
Variable DataLoader_new : Z -> W -> option exn * W.
Variable attempt : Z -> W -> option exn * W.

Local Abbreviation find_max := (find_max_batch_size DataLoader_new attempt).
Local Abbreviation loop := (probe_loop DataLoader_new attempt).

(** C1, amended: let memory be a threshold on the batch size (sizes
    below [bound] fit, sizes from [bound] on fail with the
    out-of-memory error).  Then a value returned by the probe is
    maximal feasible among the sizes the probe can try.  It lies on
    the stride grid.  When the floor fits and is within the maximum,
    the returned size fits, is within the maximum and was tried with
    success in this run; otherwise the floor is what is returned.  And
    no size on the grid that is larger than the returned one and at
    most [max_batch_size] fits.  With a positive stride, and loaders
    that are built without error from the floor on, the probe does
    return. *)
Theorem find_max_batch_size_maximal_on_grid
    bound fuel rank world_size start max_batch_size step (w : W) :
  (forall b w', b < bound -> fst (attempt b w') = None) ->
  (forall b w', bound <= b ->
     exists e, fst (attempt b w') = Some e /\ caught_as_oom e = true) ->
  let o := find_max fuel rank world_size start max_batch_size step w in
  (forall r,
     res o = Ret r ->
     on_grid start step r /\
     (start < bound -> start <= max_batch_size ->
      r < bound /\ r <= max_batch_size /\ (r, None) ∈ attempts (trace o)) /\
     (bound <= start \/ max_batch_size < start -> r = start) /\
     forall k, 0 <= k ->
       r < start + k * step -> start + k * step <= max_batch_size ->
       bound <= start + k * step) /\
  (0 < step ->
   (forall b w', start <= b -> fst (DataLoader_new b w') = None) ->
   max_batch_size - start < Z.of_nat fuel * step ->
   exists r, res o = Ret r).
Proof.
  intros Hfit Hoom. cbv zeta. rewrite find_max_res, find_max_attempts. split.
  - intros r Hr.
    pose proof (loop_threshold DataLoader_new attempt rank max_batch_size step
                  bound Hfit Hoom _ _ _ _ _ Hr) as Hth.
    split; [|split; [|split]].
    + apply loop_result_grid in Hr. destruct Hr as [->|Hg]; [|exact Hg].
      exists 0. lia.
    + intros Hsf Hsm.
      destruct Hth as [[_ Hstop]|(_ & Hb & Hm & _)]; [lia|].
      repeat split; try assumption.
      eapply loop_threshold_verified; eassumption.
    + intros Hcase. eapply loop_threshold_floor; eassumption.
    + intros k Hk Hlt Hmax.
      destruct Hth as [[-> Hstop]|((j & Hj & ->) & Hb & Hm & Hstop)]; [lia|].
      destruct (Z_lt_le_dec 0 step) as [Hpos|Hneg]; [|lia].
      assert (j + 1 <= k) by nia. nia.
  - intros Hstep Hloader Hfuel.
    apply (loop_threshold_returns DataLoader_new attempt rank max_batch_size
             step bound start Hstep Hloader Hfit Hoom); [lia|].
    now apply loop_terminates.
Qed.

(** X1: the probe never tries a size above [max_batch_size], and with
    a stride that is not negative never one below the floor. *)
Theorem probe_attempts_within_bounds
    fuel rank world_size start max_batch_size step (w : W) c r :
  (c, r) ∈ attempts
    (trace (find_max fuel rank world_size start max_batch_size step w)) ->
  c <= max_batch_size /\ (0 <= step -> start <= c).
Proof.
  rewrite find_max_attempts. intros Hin. split.
  - eapply loop_attempt_below_max, Hin.
  - intros Hstep. eapply loop_attempt_above_floor; eassumption.
Qed.

(** X2: with a positive stride the probe makes at most
    [(max_batch_size - start) / step + 1] attempts, and that many
    iterations are enough for it to finish. *)
Theorem probe_attempt_count
    fuel rank world_size start max_batch_size step (w : W) :
  0 < step ->
  (start <= max_batch_size ->
   Z.of_nat (length (attempts
     (trace (find_max fuel rank world_size start max_batch_size step w))))
   <= (max_batch_size - start) / step + 1) /\
  ((max_batch_size - start) / step + 1 <= Z.of_nat fuel ->
   res (find_max fuel rank world_size start max_batch_size step w)
   <> OutOfFuel).
Proof.
  intros Hstep. split.
  - intros Hle. rewrite find_max_attempts.
    set (atts := attempts (trace (loop rank max_batch_size step fuel
                                    start start w))).
    destruct (length atts) as [|n] eqn:Hlen.
    + pose proof (Z.div_pos (max_batch_size - start) step). lia.
    + destruct (lookup_lt_is_Some_2 atts n) as [[c r] Hn]; [lia|].
      pose proof (loop_attempt_sizes _ _ _ _ _ _ _ _ _ _ _ _ Hn) as Hc.
      pose proof (loop_attempt_below_max _ _ _ _ _ _ _ _ _ _ _
                    (list_elem_of_lookup_2 _ _ _ Hn)) as Hm.
      assert (Z.of_nat n <= (max_batch_size - start) / step)
        by (apply Z.div_le_lower_bound; lia).
      lia.
  - intros Hfuel. apply find_max_terminates; [assumption|].
    pose proof (Z.mul_succ_div_gt (max_batch_size - start) step Hstep). nia.
Qed.

(** X3: with a stride that is zero or negative the probe makes no
    progress towards its exit: when the floor is within the maximum and
    every loader construction and attempt on its path succeeds, no
    number of iterations completes the run. *)
Theorem probe_diverges_without_progress
    rank world_size start max_batch_size step (w : W) :
  step <= 0 -> start <= max_batch_size ->
  (forall k w', 0 <= k -> fst (DataLoader_new (start + k * step) w') = None) ->
  (forall k w', 0 <= k -> fst (attempt (start + k * step) w') = None) ->
  forall fuel,
    res (find_max_batch_size DataLoader_new attempt
           fuel rank world_size start max_batch_size step w)
    = OutOfFuel.
Proof.
  intros Hstep Hle HL HA fuel. rewrite find_max_res.
  apply (loop_diverges _ _ _ _ _ start _ _ _ _ 0 Hstep Hle HL HA); lia.
Qed.

(** X4: the loader is built outside the [try] block.  When its
    construction raises, at whatever iteration and whatever the
    exception (the out-of-memory error included), the probe raises that
    exception and the process group is not destroyed. *)
Theorem probe_loader_failure_propagates
    fuel rank world_size start max_batch_size step (w : W) c e :
  let o := find_max fuel rank world_size start max_batch_size step w in
  EvDataLoader c (Some e) ∈ trace o ->
  res o = Raise e /\ count_events is_destroy (trace o) = O.
Proof.
  cbv zeta. rewrite find_max_unfold. cbv zeta. cbn [res trace].
  set (o := loop rank max_batch_size step fuel start start w).
  intros Hin.
  assert (Hres : res o = Raise e).
  { apply (loop_loader_failure _ _ _ _ _ _ _ _ _ c).
    apply elem_of_app in Hin. destruct Hin as [Hin|Hin].
    - repeat (apply elem_of_cons in Hin; destruct Hin as [Hin|Hin];
              [discriminate|]).
      inversion Hin.
    - apply elem_of_app in Hin. destruct Hin as [Hin|Hin]; [exact Hin|].
      destruct (res o); try (inversion Hin; fail).
      apply list_elem_of_singleton in Hin. discriminate. }
  split; [exact Hres|].
  rewrite Hres. cbn. rewrite app_nil_r. apply loop_no_teardown.
Qed.

(** X5: a returned size was tried with success in this run, the one
    exception being the floor when no attempt succeeded at all. *)
Theorem probe_result_was_attempted
    fuel rank world_size start max_batch_size step (w : W) r :
  let o := find_max fuel rank world_size start max_batch_size step w in
  res o = Ret r ->
  (r, None) ∈ attempts (trace o) \/
  (r = start /\ forall c, (c, None) ∉ attempts (trace o)).
Proof.
  cbv zeta. rewrite find_max_attempts, find_max_res.
  apply loop_result_verified.
Qed.

(** X6: on rank 0 the console log of a probe that returns has one line
    per attempt, in order: "succeeded" for a successful attempt and
    "failed due to OOM" for the one that stopped the loop. *)
Theorem probe_console_log
    fuel world_size start max_batch_size step (w : W) r :
  let o := find_max fuel 0 world_size start max_batch_size step w in
  res o = Ret r ->
  messages (trace o) = map attempt_message (attempts (trace o)).
Proof.
  cbv zeta. rewrite find_max_attempts, find_max_res. intros Hr.
  rewrite find_max_unfold. cbv zeta. cbn [trace].
  rewrite !messages_app, Hr. cbn. rewrite app_nil_r.
  eapply loop_messages; [reflexivity | exact Hr].
Qed.

End FindMaxMore.

(** * Further properties of train and main *)

Lemma count_events_calls p (tr : list event) :
  (forall m, p (EvPrint m) = false) ->
  count_events p (calls tr) = count_events p tr.
Proof.
  intros Hp. induction tr as [|ev tr IH]; [reflexivity|].
  destruct ev; cbn; rewrite ?Hp; cbn; now rewrite IH.
Qed.

Lemma pg_run_app up (t1 t2 : list event) :
  pg_run up (t1 ++ t2) =
  match pg_run up t1 with
  | Some up' => pg_run up' t2
  | None => None
  end.
Proof.
  revert up. induction t1 as [|ev t1 IH]; intros up; [reflexivity|].
  cbn. destruct (pg_step up ev); [apply IH | reflexivity].
Qed.

Lemma pg_run_calls up (tr : list event) : pg_run up (calls tr) = pg_run up tr.
Proof.
  revert up. induction tr as [|ev tr IH]; intros up; [reflexivity|].
  destruct ev; cbn; try (destruct up; cbn; rewrite ?IH; reflexivity).
Qed.

Lemma pg_run_printed up rank m : pg_run up (printed rank m) = Some up.
Proof. unfold printed. now destruct (rank =? 0). Qed.

Lemma pg_run_work (tr : list event) :
  Forall (fun ev => pg_step true ev = Some true) tr ->
  pg_run true tr = Some true.
Proof.
  induction 1 as [|ev tr Hev _ IH]; [reflexivity|].
  cbn. now rewrite Hev.
Qed.

Lemma count_epoch_events (n : nat) (epoch : Z) :
  count_events is_train_step (epoch_events n epoch) = n.
Proof.
  assert (H : forall l : list nat,
             count_events is_train_step
               (map (fun i => EvTrainStep epoch i None) l) = length l).
  { induction l as [|i l IH]; [reflexivity|]. cbn. now rewrite IH. }
  unfold epoch_events. cbn. now rewrite H, length_seq.
Qed.

Lemma count_train_steps (epochs : Z) (n : nat) :
  count_events is_train_step (training_events epochs n) =
  (Z.to_nat epochs * n)%nat.
Proof.
  assert (H : forall l : list Z,
             count_events is_train_step (concat (map (epoch_events n) l)) =
             (length l * n)%nat).
  { induction l as [|e l IH]; [reflexivity|].
    cbn [map concat length].
    rewrite count_events_app, IH, count_epoch_events. lia. }
  unfold training_events, range. now rewrite H, length_map, length_seq.
Qed.

Section FailStop.

Context {W : Type}.

Lemma fail_stop_ret {A} (a : A) (w : W) : fail_stop (ret a w).
Proof. constructor. Qed.

Lemma fail_stop_emit ev (w : W) : raised ev = None -> fail_stop (emit ev w).
Proof. intros H. repeat constructor. exact H. Qed.

Lemma fail_stop_call ev oracle (w : W) :
  (forall r, raised (ev r) = r) -> fail_stop (call ev oracle w).
Proof.
  intros H. unfold call, fail_stop.
  destruct (oracle w) as [[e|] w']; cbn.
  - exists [], (ev (Some e)). repeat split; [apply H | constructor].
  - repeat constructor. apply H.
Qed.

Lemma fail_stop_bind {A B} (m : M W A) (f : A -> M W B) (w : W) :
  fail_stop (m w) -> (forall a w', fail_stop (f a w')) ->
  fail_stop (bind m f w).
Proof.
  unfold fail_stop, bind. intros Hm Hf.
  destruct (res (m w)) as [a|e|] eqn:Hres; cbn; [|exact Hm|exact Hm].
  specialize (Hf a (final (m w))).
  destruct (res (f a (final (m w)))) as [b|e|]; cbn.
  - apply Forall_app. now split.
  - destruct Hf as (tr & ev & Htr & Hev & Hall).
    exists (trace (m w) ++ tr), ev. rewrite Htr, app_assoc.
    repeat split; [exact Hev|]. apply Forall_app. now split.
  - exact Hf.
Qed.

Lemma fail_stop_for_each {A} (xs : list A) (body : A -> M W unit) (w : W) :
  (forall x w', fail_stop (body x w')) ->
  fail_stop (for_each xs body w).
Proof.
  intros Hbody. revert w. induction xs as [|x xs IH]; intros w;
    cbn [for_each].
  - exact (fail_stop_ret tt w).
  - apply fail_stop_bind; [apply Hbody | intros _ w'; apply IH].
Qed.

Lemma bind_success {A B} (m : M W A) (f : A -> M W B) (w : W) b :
  res (bind m f w) = Ret b ->
  exists a, res (m w) = Ret a /\
            res (f a (final (m w))) = Ret b /\
            trace (bind m f w) = trace (m w) ++ trace (f a (final (m w))).
Proof.
  unfold bind. destruct (res (m w)) as [a| |]; cbn; try discriminate.
  intros H. exists a. now repeat split.
Qed.

(** What a run that stops at the first failure looks like from
    outside. *)
Lemma fail_stop_inv {A} (o : out W A) :
  fail_stop o ->
  res o <> OutOfFuel /\
  (forall e, res o = Raise e <->
             exists ev, last (trace o) = Some ev /\ raised ev = Some e) /\
  (forall ev e, ev ∈ trace o -> raised ev = Some e ->
                res o = Raise e /\ last (trace o) = Some ev).
Proof.
  unfold fail_stop. intros H.
  assert (Hin : forall ev e, ev ∈ trace o -> raised ev = Some e ->
                res o = Raise e /\ last (trace o) = Some ev).
  { intros ev e Hev Hr. destruct (res o) as [a|e'|].
    - rewrite Forall_forall in H. rewrite (H ev Hev) in Hr. discriminate.
    - destruct H as (tr & ev' & Htr & Hev' & Hall).
      rewrite Htr in Hev |- *. rewrite last_snoc.
      apply elem_of_app in Hev. destruct Hev as [Hev|Hev].
      + rewrite Forall_forall in Hall. rewrite (Hall ev Hev) in Hr.
        discriminate.
      + apply list_elem_of_singleton in Hev. subst ev'.
        split; congruence.
    - destruct H. }
  split; [|split; [|exact Hin]].
  - intros Hres. now rewrite Hres in H.
  - intros e. split.
    + intros Hres. rewrite Hres in H.
      destruct H as (tr & ev & Htr & Hev & _).
      exists ev. rewrite Htr, last_snoc. now split.
    + intros (ev & Hlast & Hev).
      apply (Hin ev e); [|exact Hev].
      eapply last_Some_elem_of, Hlast.
Qed.

End FailStop.

Section TrainMore.

Context {W : Type}.
Variable DataLoader_new : Z -> W -> option exn * W.
Variable attempt : Z -> W -> option exn * W.
Variable train_step : Z -> nat -> W -> option exn * W.
Variable num_batches : Z -> Z -> nat.

Local Abbreviation find_max := (find_max_batch_size DataLoader_new attempt).
Local Abbreviation loop := (probe_loop DataLoader_new attempt).
Local Abbreviation epochs_of := (train_epochs train_step num_batches).
Local Abbreviation train_of := (train DataLoader_new train_step num_batches).
Local Abbreviation main_of :=
  (main DataLoader_new attempt train_step num_batches).

Lemma steps_success_trace epoch (l : list nat) (w : W) u :
  res (for_each l (fun i => call (EvTrainStep epoch i) (train_step epoch i)) w)
    = Ret u ->
  trace (for_each l (fun i => call (EvTrainStep epoch i) (train_step epoch i)) w)
    = map (fun i => EvTrainStep epoch i None) l.
Proof.
  revert w. induction l as [|i l IH]; intros w; cbn [for_each map].
  - reflexivity.
  - intros H. apply bind_success in H as (a & Ha & Hrest & ->).
    rewrite (IH _ Hrest). unfold call in *.
    destruct (train_step epoch i w) as [[e|] w1]; [discriminate|].
    reflexivity.
Qed.

Lemma epochs_success_trace world_size batch_size epochs (w : W) u :
  res (epochs_of world_size batch_size epochs w) = Ret u ->
  trace (epochs_of world_size batch_size epochs w) =
    training_events epochs (num_batches world_size batch_size).
Proof.
  unfold train_epochs, training_events.
  revert w. induction (range epochs) as [|e l IH]; intros w;
    cbn [for_each map concat].
  - reflexivity.
  - intros H. apply bind_success in H as (a & Ha & Hrest & ->).
    rewrite (IH _ Hrest). f_equal.
    apply bind_success in Ha as (a' & _ & Hsteps & ->).
    now rewrite (steps_success_trace _ _ _ _ Hsteps).
Qed.

Lemma train_epochs_fail_stop world_size batch_size epochs (w : W) :
  fail_stop (epochs_of world_size batch_size epochs w).
Proof.
  unfold train_epochs. apply fail_stop_for_each. intros epoch w'.
  apply fail_stop_bind; [now apply fail_stop_emit|]. intros _ w''.
  apply fail_stop_for_each. intros i w3.
  now apply fail_stop_call.
Qed.

Lemma train_fail_stop rank world_size batch_size epochs (w : W) :
  fail_stop (train_of rank world_size batch_size epochs w).
Proof.
  unfold train, initialize_model.
  repeat (apply fail_stop_bind; [now apply fail_stop_emit | intros _ ?]).
  apply fail_stop_bind; [now apply fail_stop_call | intros _ ?].
  apply fail_stop_bind; [now apply fail_stop_emit | intros _ ?].
  apply fail_stop_bind; [apply train_epochs_fail_stop | intros _ ?].
  now apply fail_stop_emit.
Qed.

Lemma train_returns rank world_size batch_size epochs (w : W) u :
  res (train_of rank world_size batch_size epochs w) = Ret u ->
  trace (train_of rank world_size batch_size epochs w) =
    [EvInitProcessGroup rank world_size; EvSetDevice rank;
     EvInitializeModel rank; EvDummyDataset 64000;
     EvDistributedSampler true; EvDataLoader batch_size None; EvSGD] ++
    training_events epochs (num_batches world_size batch_size) ++
    [EvDestroyProcessGroup].
Proof.
  rewrite train_unfold. cbv zeta.
  destruct (DataLoader_new batch_size w) as [[e|] w1]; cbn [res trace];
    [discriminate|].
  destruct (res (epochs_of world_size batch_size epochs w1)) as [[]| |] eqn:Hep;
    try discriminate.
  intros _. now rewrite (epochs_success_trace _ _ _ _ _ Hep).
Qed.

Lemma training_events_epoch (epochs : Z) (n : nat) :
  Forall is_epoch_event (training_events epochs n).
Proof.
  unfold training_events.
  induction (range epochs) as [|e l IH]; cbn; [constructor|].
  constructor; [exact I|]. apply Forall_app. split; [|exact IH].
  apply Forall_forall. intros ev Hev.
  apply list_elem_of_In, in_map_iff in Hev as (i & <- & _). exact I.
Qed.

(** X7: a training that returns has made, after its set-up, exactly
    [epochs] passes over the loader in order, each one [set_epoch]
    followed by all the batches, and then destroyed the process
    group; that is [max epochs 0 * len(dataloader)] optimisation
    steps. *)
Theorem train_success_trace rank world_size batch_size epochs (w : W) u :
  let o := train_of rank world_size batch_size epochs w in
  let n := num_batches world_size batch_size in
  res o = Ret u ->
  trace o =
    [EvInitProcessGroup rank world_size; EvSetDevice rank;
     EvInitializeModel rank; EvDummyDataset 64000;
     EvDistributedSampler true; EvDataLoader batch_size None; EvSGD] ++
    training_events epochs n ++ [EvDestroyProcessGroup] /\
  count_events is_train_step (trace o) = (Z.to_nat epochs * n)%nat.
Proof.
  cbv zeta. intros Hres. rewrite (train_returns _ _ _ _ _ _ Hres).
  split; [reflexivity|].
  cbn. rewrite count_events_app, count_train_steps. cbn. lia.
Qed.

(** X8: with [epochs <= 0] there is nothing to iterate over: once the
    loader is built, training returns without a single epoch or step
    and destroys the process group. *)
Theorem train_no_epochs rank world_size batch_size epochs (w w1 : W) :
  epochs <= 0 ->
  DataLoader_new batch_size w = (None, w1) ->
  train DataLoader_new train_step num_batches
        rank world_size batch_size epochs w =
    Out (Ret tt) w1
        [EvInitProcessGroup rank world_size; EvSetDevice rank;
         EvInitializeModel rank; EvDummyDataset 64000;
         EvDistributedSampler true; EvDataLoader batch_size None; EvSGD;
         EvDestroyProcessGroup].
Proof.
  intros Hep HL. rewrite train_unfold, HL. cbv zeta.
  unfold train_epochs, range.
  replace (Z.to_nat epochs) with O by lia. reflexivity.
Qed.

(** X9: training stops at the first call that raises.  It always
    finishes; it raises [e] exactly when its last call raised [e]; and
    a call that raised, whether the loader construction or a training
    step, is the last event and its exception is the one that escapes:
    no step runs after a failed one. *)
Theorem train_stops_at_first_failure
    rank world_size batch_size epochs (w : W) :
  let o := train_of rank world_size batch_size epochs w in
  res o <> OutOfFuel /\
  (forall e, res o = Raise e <->
             exists ev, last (trace o) = Some ev /\ raised ev = Some e) /\
  (forall ev e, ev ∈ trace o -> raised ev = Some e ->
                res o = Raise e /\ last (trace o) = Some ev).
Proof. cbv zeta. apply fail_stop_inv, train_fail_stop. Qed.

Lemma train_silent rank world_size batch_size epochs (w : W) :
  Forall (fun ev => is_print ev = false)
         (trace (train_of rank world_size batch_size epochs w)).
Proof.
  assert (Hep : forall w1, Forall (fun ev => is_print ev = false)
                  (trace (epochs_of world_size batch_size epochs w1))).
  { intros w1. eapply Forall_impl; [apply train_epochs_events|].
    intros [] H; solve [reflexivity | destruct H]. }
  rewrite train_unfold. cbv zeta.
  destruct (DataLoader_new batch_size w) as [[e|] w1]; cbn [trace].
  - repeat constructor.
  - repeat (apply Forall_cons; split; [reflexivity|]).
    apply Forall_app. split; [apply Hep|].
    destruct (res (epochs_of _ _ _ _)); repeat constructor.
Qed.

Lemma find_max_silent fuel rank world_size start max_batch_size step (w : W) :
  rank <> 0 ->
  Forall (fun ev => is_print ev = false)
         (trace (find_max fuel rank world_size start max_batch_size step w)).
Proof.
  intros Hrank. rewrite find_max_unfold. cbv zeta. cbn [trace].
  repeat (apply Forall_cons; split; [reflexivity|]).
  apply Forall_app. split; [now apply loop_silent|].
  destruct (res (loop _ _ _ _ _ _ _)); repeat constructor.
Qed.

(** X10: [print] is called on rank 0 only: on any other rank a run of
    [main], whatever its outcome, makes none of the script's [print]
    calls.  (The progress bars of [tqdm] are drawn on every rank and
    are no part of this statement.) *)
Theorem main_prints_on_rank0_only
    fuel rank world_size start max_batch_size step epochs (w : W) :
  rank <> 0 ->
  Forall (fun ev => is_print ev = false)
    (trace (main_of fuel rank world_size start max_batch_size step epochs w)).
Proof.
  intros Hrank.
  assert (Hp : forall m, printed rank m = []).
  { intros m. unfold printed. destruct (Z.eqb_spec rank 0); [lia|reflexivity]. }
  pose proof (find_max_silent fuel rank world_size start max_batch_size
                step w Hrank) as Hfm.
  rewrite main_unfold. cbv zeta.
  destruct (res (find_max fuel rank world_size start max_batch_size step w));
    cbn [trace]; rewrite ?Hp; cbn [app]; try exact Hfm.
  apply Forall_app. split; [exact Hfm | apply train_silent].
Qed.

Lemma loop_count_none p fuel rank max_batch_size step b s (w : W) :
  (forall m, p (EvPrint m) = false) ->
  (forall ev, is_probe_call ev = true -> p ev = false) ->
  count_events p (trace (loop rank max_batch_size step fuel b s w)) = O.
Proof.
  intros Hprint Hp. rewrite <- count_events_calls by assumption.
  apply count_events_none.
  eapply Forall_impl; [apply loop_probe_calls | exact Hp].
Qed.

(** X11: when the probe raises, [main] raises the same exception and
    never reaches training: the process group was initialised once and
    is left as it is, and no training step is made. *)
Theorem main_probe_failure
    fuel rank world_size start max_batch_size step epochs (w : W) e :
  res (find_max fuel rank world_size start max_batch_size step w) = Raise e ->
  let o := main_of fuel rank world_size start max_batch_size step epochs w in
  res o = Raise e /\
  count_events is_init (trace o) = 1%nat /\
  count_events is_destroy (trace o) = 0%nat /\
  count_events is_train_step (trace o) = 0%nat.
Proof.
  intros Hfm. cbv zeta. rewrite main_unfold. cbv zeta. rewrite Hfm.
  cbn [res trace]. split; [reflexivity|].
  rewrite find_max_res in Hfm.
  rewrite find_max_unfold. cbv zeta. cbn [trace]. rewrite Hfm.
  rewrite app_nil_r, !count_events_app.
  assert (Hpr : forall p, (forall m, p (EvPrint m) = false) ->
                  count_events p (printed rank MsgFinding) = O).
  { intros p Hp. unfold printed. destruct (rank =? 0); cbn;
      now rewrite ?Hp. }
  rewrite !Hpr by reflexivity.
  rewrite !loop_count_none
    by (intros []; first [reflexivity | discriminate]).
  repeat split; reflexivity.
Qed.

Lemma find_max_pg_run fuel rank world_size start max_batch_size step (w : W) :
  pg_run false
    (trace (find_max fuel rank world_size start max_batch_size step w)) =
  Some match res (find_max fuel rank world_size start max_batch_size step w)
       with Ret _ => false | _ => true end.
Proof.
  rewrite find_max_unfold. cbv zeta. cbn [res trace]. cbn [app pg_run pg_step].
  rewrite pg_run_app.
  rewrite <- pg_run_calls, pg_run_work.
  - now destruct (res (loop _ _ _ _ _ _ _)).
  - eapply Forall_impl; [apply loop_probe_calls|].
    intros []; (reflexivity || discriminate).
Qed.

Lemma train_pg_run rank world_size batch_size epochs (w : W) :
  pg_run false (trace (train_of rank world_size batch_size epochs w)) =
  Some match res (train_of rank world_size batch_size epochs w)
       with Ret _ => false | _ => true end.
Proof.
  rewrite train_unfold. cbv zeta.
  destruct (DataLoader_new batch_size w) as [[e|] w1]; [reflexivity|].
  cbn [res trace]. cbn [app pg_run pg_step].
  rewrite pg_run_app, pg_run_work.
  - now destruct (res (epochs_of _ _ _ _)).
  - eapply Forall_impl; [apply train_epochs_events|].
    intros [] H; solve [reflexivity | destruct H].
Qed.

Lemma main_pg_run
    fuel rank world_size start max_batch_size step epochs (w : W) :
  pg_run false
    (trace (main_of fuel rank world_size start max_batch_size step epochs w)) =
  Some match res (main_of fuel rank world_size start max_batch_size step
                    epochs w)
       with Ret _ => false | _ => true end.
Proof.
  rewrite main_unfold. cbv zeta.
  pose proof (find_max_pg_run fuel rank world_size start max_batch_size
                step w) as Hfm.
  destruct (res (find_max fuel rank world_size start max_batch_size step w))
    as [v| |]; cbn [res trace];
    rewrite pg_run_app, pg_run_printed; try exact Hfm.
  rewrite pg_run_app, Hfm, pg_run_app, pg_run_printed.
  apply train_pg_run.
Qed.

(** X12: the process group in runs of [main] that return, and in runs
    that end with an exception raised by a loader construction, an
    attempt or a training step.  In both, a group is never initialised
    while one is up, never destroyed while none is up, and every other
    library call is made while one is up.  When [main] returns the
    group is down at the end; when such an exception escapes, the
    group is left up. *)
Theorem main_process_group_discipline
    fuel rank world_size start max_batch_size step epochs (w : W) :
  let o := main_of fuel rank world_size start max_batch_size step epochs w in
  (forall u, res o = Ret u -> pg_run false (trace o) = Some false) /\
  (forall ev e, ev ∈ trace o -> raised ev = Some e -> res o = Raise e ->
                pg_run false (trace o) = Some true).
Proof.
  cbv zeta. rewrite main_pg_run. split.
  - intros u ->. reflexivity.
  - intros ev e _ _ ->. reflexivity.
Qed.

(** X13: a run of [main] that returns has trained with the size the
    probe returned: the probe returned some [v], rank 0 announced it,
    and the run made [max epochs 0] passes over a loader of batch size
    [v], the probe itself contributing no optimisation step. *)
Theorem main_trains_with_probe_result
    fuel rank world_size start max_batch_size step epochs (w : W) u :
  let o := main_of fuel rank world_size start max_batch_size step epochs w in
  res o = Ret u ->
  exists v,
    res (find_max fuel rank world_size start max_batch_size step w) = Ret v /\
    trace o =
      printed rank MsgFinding ++
      trace (find_max fuel rank world_size start max_batch_size step w) ++
      printed rank (MsgStarting v) ++
      [EvInitProcessGroup rank world_size; EvSetDevice rank;
       EvInitializeModel rank; EvDummyDataset 64000;
       EvDistributedSampler true; EvDataLoader v None; EvSGD] ++
      training_events epochs (num_batches world_size v) ++
      [EvDestroyProcessGroup] /\
    (rank = 0 -> MsgStarting v ∈ messages (trace o)) /\
    count_events is_train_step (trace o) =
      (Z.to_nat epochs * num_batches world_size v)%nat.
Proof.
  cbv zeta. rewrite main_unfold. cbv zeta.
  destruct (res (find_max fuel rank world_size start max_batch_size step w))
    as [v| |] eqn:Hfm; cbn [res trace]; try discriminate.
  intros Htrain. exists v. split; [reflexivity|].
  pose proof (train_returns rank world_size v epochs _ u Htrain) as Htr.
  assert (Hcount : count_events is_train_step
             (trace (train_of rank world_size v epochs
                (final (find_max fuel rank world_size start max_batch_size
                          step w)))) =
           (Z.to_nat epochs * num_batches world_size v)%nat).
  { rewrite Htr. cbn. rewrite count_events_app, count_train_steps. cbn. lia. }
  split; [|split].
  - now rewrite Htr.
  - intros ->. rewrite !messages_app. rewrite !elem_of_app.
    right. right. left. cbn. apply elem_of_cons. now left.
  - rewrite !count_events_app, Hcount.
    assert (Hpr : forall m, count_events is_train_step (printed rank m) = O).
    { intros m. unfold printed. now destruct (rank =? 0). }
    rewrite !Hpr. rewrite find_max_res in Hfm.
    rewrite find_max_unfold. cbv zeta. cbn [trace].
    rewrite Hfm, !count_events_app.
    rewrite loop_count_none
      by (intros []; first [reflexivity | discriminate]).
    reflexivity.
Qed.

(** C7: on the success path the calls of [main], [print] calls aside,
    are exactly these, in this order: process group initialised,
    device set, model initialised; the probe; process group destroyed;
    process group initialised, device set, model initialised again;
    the training; process group destroyed.  The probe is the dataset,
    the sampler and then, for each attempt of the linear search from
    [start_batch_size] in strides of [step], a loader and the attempt
    with the outcome the runtime gave it, ending when the next
    candidate exceeds [max_batch_size] or on the out-of-memory error.
    The training is the dataset, the sampler, the loader at the size
    the probe returned, the optimiser and [epochs] passes over all the
    batches.  Neither part contains a group initialisation, a model
    initialisation or a teardown, so each phase occurs once. *)
Theorem main_phase_order
    fuel rank world_size start max_batch_size step epochs (w : W) u :
  let o := main_of fuel rank world_size start max_batch_size step epochs w in
  res o = Ret u ->
  exists v,
    let atts :=
      attempts
        (trace (find_max fuel rank world_size start max_batch_size step w)) in
    let probe_calls :=
      [EvDummyDataset 1000; EvDistributedSampler false] ++
      concat (map probe_iteration atts) in
    let train_calls :=
      [EvDummyDataset 64000; EvDistributedSampler true;
       EvDataLoader v None; EvSGD] ++
      training_events epochs (num_batches world_size v) in
    calls (trace o) =
      [EvInitProcessGroup rank world_size; EvSetDevice rank;
       EvInitializeModel rank] ++
      probe_calls ++
      [EvDestroyProcessGroup;
       EvInitProcessGroup rank world_size; EvSetDevice rank;
       EvInitializeModel rank] ++
      train_calls ++
      [EvDestroyProcessGroup] /\
    Forall (fun ev => is_probe_call ev = true) probe_calls /\
    Forall (fun ev => is_train_call ev = true) train_calls /\
    (forall i c r, atts !! i = Some (c, r) ->
       c = start + Z.of_nat i * step /\ c <= max_batch_size /\
       exists w', fst (attempt c w') = r) /\
    (forall i c e, atts !! i = Some (c, Some e) ->
       S i = length atts /\ caught_as_oom e = true) /\
    (forall c, last atts = Some (c, None) -> max_batch_size < c + step) /\
    (atts = [] -> max_batch_size < start) /\
    v = last_success start atts.
Proof.
  cbv zeta. rewrite main_unfold. cbv zeta.
  destruct (res (find_max fuel rank world_size start max_batch_size step w))
    as [v| |] eqn:Hfm; cbn [res trace]; try discriminate.
  intros Htrain. exists v.
  rewrite (train_returns _ _ _ _ _ _ Htrain).
  rewrite find_max_res in Hfm. rewrite find_max_attempts.
  rewrite find_max_unfold. cbv zeta. cbn [trace]. rewrite Hfm.
  set (o := probe_loop DataLoader_new attempt rank max_batch_size step
              fuel start start w) in *.
  pose proof (loop_calls_returned _ _ _ _ _ _ _ _ _ _ Hfm) as Hcalls.
  fold o in Hcalls.
  pose proof (training_events_epoch epochs (num_batches world_size v)) as Hep.
  assert (Hnp : Forall (fun ev => is_print ev = false)
                  (training_events epochs (num_batches world_size v))).
  { eapply Forall_impl; [exact Hep|].
    intros [] H; solve [reflexivity | destruct H]. }
  split; [|split; [|split; [|split; [|split; [|split; [|split]]]]]].
  - rewrite !calls_app, !calls_printed. cbn.
    rewrite Hcalls, (calls_without_print _ Hnp).
    rewrite <- !app_assoc. reflexivity.
  - apply Forall_app. split; [repeat constructor|].
    rewrite <- Hcalls. apply loop_probe_calls.
  - apply Forall_app. split; [repeat constructor|].
    eapply Forall_impl; [exact Hep|].
    intros [] H; solve [reflexivity | destruct H].
  - intros i c r Hi. split; [|split].
    + eapply loop_attempt_sizes, Hi.
    + eapply loop_attempt_below_max, list_elem_of_lookup_2, Hi.
    + eapply loop_attempt_outcome, list_elem_of_lookup_2, Hi.
  - intros i c e Hi. split.
    + eapply loop_failure_is_last, Hi.
    + pose proof (loop_raising_attempt DataLoader_new attempt rank
                    max_batch_size step fuel start start w c e) as Hr.
      fold o in Hr. rewrite Hfm in Hr.
      destruct (caught_as_oom e); [reflexivity|].
      discriminate Hr. apply attempts_elem.
      eapply list_elem_of_lookup_2, Hi.
  - intros c Hlast. pose proof (loop_return_cause _ _ _ _ _ _ _ _ _ _ Hfm) as Hc.
    fold o in Hc. now rewrite Hlast in Hc.
  - intros Hnil. pose proof (loop_return_cause _ _ _ _ _ _ _ _ _ _ Hfm) as Hc.
    fold o in Hc. now rewrite Hnil in Hc.
  - eapply loop_returns_last_success, Hfm.
Qed.

End TrainMore.

(** * Further properties of the dataset and of the cache directory *)

Lemma tensor_row_spec (t : tensor2) (idx : Z) :
  let n := Z.of_nat (length t) in
  (- n <= idx < n -> exists row, tensor_row t idx = inr row) /\
  (~ (- n <= idx < n) -> tensor_row t idx = inl IndexError) /\
  (- n <= idx < 0 -> tensor_row t idx = tensor_row t (idx + n)).
Proof.
  cbv zeta. unfold tensor_row.
  destruct (Z.ltb_spec idx 0) as [Hneg|Hpos].
  - destruct (Z.ltb_spec (idx + Z.of_nat (length t)) 0) as [Hlow|Hlow].
    + destruct (Z.leb_spec 0 (idx + Z.of_nat (length t))) as [?|_]; [lia|].
      cbn. repeat split; intros; (lia || reflexivity).
    + destruct (Z.leb_spec 0 (idx + Z.of_nat (length t))) as [_|?]; [|lia].
      destruct (Z.ltb_spec (idx + Z.of_nat (length t))
                  (Z.of_nat (length t))) as [_|?]; [|lia].
      cbn.
      destruct (lookup_lt_is_Some_2 t (Z.to_nat (idx + Z.of_nat (length t))))
        as [row Hrow]; [lia|].
      rewrite Hrow. repeat split; intros; eauto; lia.
  - destruct (Z.leb_spec 0 idx) as [_|?]; [|lia].
    destruct (Z.ltb_spec idx (Z.of_nat (length t))) as [Hlt|Hge]; cbn.
    + destruct (lookup_lt_is_Some_2 t (Z.to_nat idx)) as [row Hrow]; [lia|].
      rewrite Hrow. repeat split; intros; eauto; lia.
    + repeat split; intros; (lia || reflexivity).
Qed.

Section DatasetMore.

Context {G : Type}.
Variable manual_seed : Z -> G -> G.
Variable randint : Z -> Z -> Z -> Z -> G -> (exn + tensor2) * G.

(** X14: a constructed dataset can be indexed exactly on
    [-len, len): there [__getitem__] returns a dictionary, a negative
    index standing for the sample counted from the end, and for any
    other index that fits a signed 64-bit integer it raises
    [IndexError].  The rule for indexing a tensor is torch's. *)
Theorem DummyDataset_index_range
    num_samples num_tokens max_len seed (g g' : G) ds idx :
  randint_contract randint ->
  DummyDataset_init manual_seed randint num_samples num_tokens max_len seed g
    = (inr ds, g') ->
  let n := DummyDataset_len ds in
  (- n <= idx < n -> exists d, DummyDataset_getitem ds idx = inr d) /\
  (~ (- n <= idx < n) ->
   - 9223372036854775808 <= idx < 9223372036854775808 ->
   DummyDataset_getitem ds idx = inl IndexError) /\
  (- n <= idx < 0 ->
   DummyDataset_getitem ds idx = DummyDataset_getitem ds (idx + n)).
Proof.
  intros Hrand Hinit. unfold DummyDataset_init in Hinit.
  destruct (randint 0 num_tokens num_samples max_len (manual_seed seed g))
    as [[e1|t1] g1] eqn:H1; [discriminate|].
  destruct (randint 0 num_tokens num_samples max_len g1)
    as [[e2|t2] g2] eqn:H2; [discriminate|].
  destruct (randint 0 num_tokens num_samples max_len g2)
    as [[e3|t3] g3] eqn:H3; [discriminate|].
  injection Hinit as <- _.
  apply Hrand in H1, H2, H3.
  destruct H1 as (_ & _ & Hn1 & _), H2 as (_ & _ & Hn2 & _),
           H3 as (_ & _ & Hn3 & _).
  cbv zeta. unfold DummyDataset_len, DummyDataset_getitem. cbn.
  pose proof (tensor_row_spec t1 idx) as (Hin1 & Hout1 & Hneg1).
  pose proof (tensor_row_spec t2 idx) as (Hin2 & Hout2 & Hneg2).
  pose proof (tensor_row_spec t3 idx) as (Hin3 & Hout3 & Hneg3).
  rewrite Hn1 in Hin1, Hout1, Hneg1. rewrite Hn2 in Hin2, Hout2, Hneg2.
  rewrite Hn3 in Hin3, Hout3, Hneg3.
  split; [|split].
  - intros Hidx.
    destruct (Hin1 Hidx) as [r1 ->], (Hin2 Hidx) as [r2 ->],
             (Hin3 Hidx) as [r3 ->].
    eauto.
  - intros Hidx _. now rewrite (Hout1 Hidx).
  - intros Hidx. now rewrite (Hneg1 Hidx), (Hneg2 Hidx), (Hneg3 Hidx).
Qed.

End DatasetMore.

(** X15: the module fixes the cache directory once.  Afterwards the
    environment binds HF_HOME to the module constant; a value that was
    already set is kept and the environment is unchanged; with none set
    the constant is "./hf_models"; no other variable is touched; and
    running the set-up again changes nothing. *)
Theorem setup_HF_HOME_spec (env : gmap string string) :
  let h := fst (setup_HF_HOME env) in
  let env' := snd (setup_HF_HOME env) in
  env' !! "HF_HOME" = Some h /\
  (forall v, env !! "HF_HOME" = Some v -> h = v /\ env' = env) /\
  (env !! "HF_HOME" = None -> h = "./hf_models") /\
  (forall name, name <> "HF_HOME" -> env' !! name = env !! name) /\
  setup_HF_HOME env' = (h, env').
Proof.
  cbv zeta. unfold setup_HF_HOME, getenv. cbn [fst snd].
  split; [apply lookup_insert_eq|]. split; [|split; [|split]].
  - intros v Hv. rewrite Hv. split; [reflexivity|]. now apply insert_id.
  - intros Hn. now rewrite Hn.
  - intros name Hname. now apply lookup_insert_ne.
  - rewrite lookup_insert_eq. now rewrite insert_insert_eq.
Qed.

(** * The further properties on concrete runtimes *)

Lemma probe_attempts_within_bounds_witness :
  66 <= 512 /\ 2 <= 66.
Proof.
  destruct (probe_attempts_within_bounds loader_positive (threshold_attempt 40)
              100 0 2 2 512 32 tt 66 (Some cuda_oom)) as [Hmax Hfloor].
  - apply (list_elem_of_lookup_2 _ 2%nat). reflexivity.
  - split; [exact Hmax | apply Hfloor; lia].
Defined.

(** The launch block of the script: floor 2, maximum 512, stride 32. *)
Lemma probe_attempt_count_witness :
  Z.of_nat (length (attempts (trace
    (find_max_batch_size loader_positive (threshold_attempt 40)
       16 0 2 2 512 32 tt)))) <= (512 - 2) / 32 + 1 /\
  res (find_max_batch_size loader_positive (threshold_attempt 40)
         16 0 2 2 512 32 tt) <> OutOfFuel.
Proof.
  destruct (probe_attempt_count loader_positive (threshold_attempt 40)
              16 0 2 2 512 32 tt) as [Hcount Hterm]; [lia|].
  split; [apply Hcount; lia | apply Hterm; vm_compute; discriminate].
Defined.

Lemma probe_diverges_without_progress_witness :
  res (find_max_batch_size loader_positive (threshold_attempt 40)
         1000 0 2 2 512 0 tt) = OutOfFuel.
Proof.
  apply (probe_diverges_without_progress loader_positive (threshold_attempt 40)
           0 2 2 512 0 tt); try lia.
  - intros k w' _. replace (2 + k * 0) with 2 by lia. reflexivity.
  - intros k w' _. replace (2 + k * 0) with 2 by lia. reflexivity.
Defined.

Lemma probe_loader_failure_propagates_witness :
  let o := find_max_batch_size (loader_oom 60) (threshold_attempt 1000)
             100 0 2 2 512 32 tt in
  caught_as_oom cuda_oom = true /\
  res o = Raise cuda_oom /\ count_events is_destroy (trace o) = O.
Proof.
  split; [reflexivity|].
  apply (probe_loader_failure_propagates (loader_oom 60)
           (threshold_attempt 1000) 100 0 2 2 512 32 tt 66 cuda_oom).
  apply (list_elem_of_lookup_2 _ 11%nat). reflexivity.
Defined.

Lemma probe_result_was_attempted_witness :
  let o := find_max_batch_size loader_positive (threshold_attempt 40)
             100 0 2 2 512 32 tt in
  (34, None) ∈ attempts (trace o) \/
  (34 = 2 /\ forall c, (c, None) ∉ attempts (trace o)).
Proof.
  apply (probe_result_was_attempted loader_positive (threshold_attempt 40)
           100 0 2 2 512 32 tt 34).
  reflexivity.
Defined.

Lemma probe_console_log_witness :
  let o := find_max_batch_size loader_positive (threshold_attempt 40)
             100 0 2 2 512 32 tt in
  messages (trace o) = map attempt_message (attempts (trace o)).
Proof.
  apply (probe_console_log loader_positive (threshold_attempt 40)
           100 2 2 512 32 tt 34).
  reflexivity.
Defined.

Lemma train_success_trace_witness :
  let o := train loader_positive step_ok two_batches 0 2 34 5 tt in
  trace o =
    [EvInitProcessGroup 0 2; EvSetDevice 0; EvInitializeModel 0;
     EvDummyDataset 64000; EvDistributedSampler true;
     EvDataLoader 34 None; EvSGD] ++
    training_events 5 2 ++ [EvDestroyProcessGroup] /\
  count_events is_train_step (trace o) = (Z.to_nat 5 * 2)%nat.
Proof.
  apply (train_success_trace loader_positive step_ok two_batches
           0 2 34 5 tt tt).
  reflexivity.
Defined.

Lemma train_no_epochs_witness :
  train loader_positive step_ok two_batches 0 2 34 (-3) tt =
    Out (Ret tt) tt
        [EvInitProcessGroup 0 2; EvSetDevice 0; EvInitializeModel 0;
         EvDummyDataset 64000; EvDistributedSampler true;
         EvDataLoader 34 None; EvSGD; EvDestroyProcessGroup].
Proof.
  apply (train_no_epochs loader_positive step_ok two_batches
           0 2 34 (-3) tt tt); [lia | reflexivity].
Defined.

Lemma train_stops_at_first_failure_witness :
  let o := train loader_positive (step_breaks 1) two_batches 0 2 34 5 tt in
  res o = Raise nccl_error /\
  last (trace o) = Some (EvTrainStep 1 0 (Some nccl_error)).
Proof.
  destruct (train_stops_at_first_failure loader_positive (step_breaks 1)
              two_batches 0 2 34 5 tt) as (_ & _ & H).
  apply (H (EvTrainStep 1 0 (Some nccl_error)) nccl_error);
    [|reflexivity].
  apply (list_elem_of_lookup_2 _ 11%nat). reflexivity.
Defined.

Lemma main_prints_on_rank0_only_witness :
  Forall (fun ev => is_print ev = false)
    (trace (main loader_positive (threshold_attempt 40) step_ok two_batches
              100 1 2 2 512 32 5 tt)).
Proof.
  apply (main_prints_on_rank0_only loader_positive (threshold_attempt 40)
           step_ok two_batches 100 1 2 2 512 32 5 tt).
  lia.
Defined.

Lemma main_probe_failure_witness :
  let o := main loader_positive (faulty_attempt 40) step_ok two_batches
             100 0 2 2 512 32 5 tt in
  res o = Raise nccl_error /\
  count_events is_init (trace o) = 1%nat /\
  count_events is_destroy (trace o) = 0%nat /\
  count_events is_train_step (trace o) = 0%nat.
Proof.
  apply (main_probe_failure loader_positive (faulty_attempt 40) step_ok
           two_batches 100 0 2 2 512 32 5 tt nccl_error).
  reflexivity.
Defined.

Lemma main_trains_with_probe_result_witness :
  exists v,
    res (find_max_batch_size loader_positive (threshold_attempt 40)
           100 0 2 2 512 32 tt) = Ret v /\
    MsgStarting v ∈ messages
      (trace (main loader_positive (threshold_attempt 40) step_ok
                two_batches 100 0 2 2 512 32 5 tt)) /\
    count_events is_train_step
      (trace (main loader_positive (threshold_attempt 40) step_ok
                two_batches 100 0 2 2 512 32 5 tt)) =
      (Z.to_nat 5 * two_batches 2 v)%nat.
Proof.
  destruct (main_trains_with_probe_result loader_positive
              (threshold_attempt 40) step_ok two_batches
              100 0 2 2 512 32 5 tt tt eq_refl)
    as (v & Hv & _ & Hmsg & Hcount).
  exists v. split; [exact Hv|]. split; [apply Hmsg; reflexivity | exact Hcount].
Defined.

Lemma DummyDataset_index_range_witness :
  exists ds g',
    DummyDataset_init lcg_manual_seed lcg_randint 2 5 3 42 0 = (inr ds, g') /\
    DummyDataset_getitem ds 2 = inl IndexError /\
    DummyDataset_getitem ds (-1) = DummyDataset_getitem ds 1.
Proof.
  eexists. eexists. split; [vm_compute; reflexivity|].
  match goal with
  | |- DummyDataset_getitem ?ds _ = _ /\ _ =>
      destruct (DummyDataset_index_range lcg_manual_seed lcg_randint
                  2 5 3 42 0 _ ds 2 lcg_randint_contract eq_refl)
        as (_ & Hout & _);
      destruct (DummyDataset_index_range lcg_manual_seed lcg_randint
                  2 5 3 42 0 _ ds (-1) lcg_randint_contract eq_refl)
        as (_ & _ & Hneg)
  end.
  split; [apply Hout; cbn; lia | apply Hneg; cbn; lia].
Defined.

Lemma setup_HF_HOME_spec_witness :
  fst (setup_HF_HOME (<["HF_HOME" := "/data/hf"]> ∅)) = "/data/hf" /\
  snd (setup_HF_HOME (<["HF_HOME" := "/data/hf"]> ∅)) =
    <["HF_HOME" := "/data/hf"]> ∅.
Proof.
  destruct (setup_HF_HOME_spec (<["HF_HOME" := "/data/hf"]> ∅))
    as (_ & H & _).
  apply H. apply lookup_insert_eq.
Defined.

(** * The probe when memory is never exhausted *)

Section ProbeExhaustsGrid.

Context {W : Type}.
Variable DataLoader_new : Z -> W -> option exn * W.
Variable attempt : Z -> W -> option exn * W.
Variables (rank max_batch_size step : Z).

Hypothesis step_pos : 0 < step.
Variable lo : Z.
Hypothesis loader_ok :
  forall b (w : W), lo <= b -> fst (DataLoader_new b w) = None.
Hypothesis all_fit :
  forall b (w : W), lo <= b -> b <= max_batch_size ->
                    fst (attempt b w) = None.

Lemma loop_exhausts_grid fuel b s (w : W) :
  lo <= b ->
  res (probe_loop DataLoader_new attempt rank max_batch_size step fuel b s w)
    <> OutOfFuel ->
  res (probe_loop DataLoader_new attempt rank max_batch_size step fuel b s w) =
    Ret (if b <=? max_batch_size
         then b + (max_batch_size - b) / step * step
         else s).
Proof.
  pattern fuel, b, s, w,
    (probe_loop DataLoader_new attempt rank max_batch_size step fuel b s w);
    apply loop_ind; clear fuel b s w; cbn [res]; intros.
  - destruct (Z.leb_spec b max_batch_size); [lia | reflexivity].
  - congruence.
  - specialize (loader_ok b w H1). rewrite H0 in loader_ok. discriminate.
  - rewrite H3 by (lia || assumption).
    destruct (Z.leb_spec b max_batch_size); [|lia].
    destruct (Z.leb_spec (b + step) max_batch_size) as [Hnext|Hlast].
    + replace (max_batch_size - (b + step))
        with (max_batch_size - b + (-1) * step) by lia.
      rewrite Z.div_add by lia. f_equal. lia.
    + rewrite (Z.div_small (max_batch_size - b) step) by lia. f_equal. lia.
  - specialize (all_fit b w1 H3 H). rewrite H1 in all_fit. discriminate.
  - specialize (all_fit b w1 H3 H). rewrite H1 in all_fit. discriminate.
Qed.

End ProbeExhaustsGrid.

(** X16: when every size up to the maximum fits, the probe walks the
    whole grid and returns its last point within the maximum,
    [start + (max_batch_size - start) / step * step]; the quotient
    plus one iterations are enough. *)
Theorem probe_exhausts_grid {W}
    (DataLoader_new attempt : Z -> W -> option exn * W)
    fuel rank world_size start max_batch_size step (w : W) :
  0 < step -> start <= max_batch_size ->
  (forall b w', start <= b -> fst (DataLoader_new b w') = None) ->
  (forall b w', start <= b -> b <= max_batch_size ->
                fst (attempt b w') = None) ->
  (max_batch_size - start) / step + 1 <= Z.of_nat fuel ->
  res (find_max_batch_size DataLoader_new attempt
         fuel rank world_size start max_batch_size step w) =
    Ret (start + (max_batch_size - start) / step * step).
Proof.
  intros Hstep Hle HL HA Hfuel.
  assert (Hterm : res (find_max_batch_size DataLoader_new attempt fuel rank
                         world_size start max_batch_size step w)
                  <> OutOfFuel).
  { apply find_max_terminates; [assumption|].
    pose proof (Z.mul_succ_div_gt (max_batch_size - start) step Hstep). nia. }
  rewrite find_max_res in Hterm |- *.
  rewrite (loop_exhausts_grid DataLoader_new attempt rank max_batch_size step
             Hstep start HL HA fuel start start w); [|lia|exact Hterm].
  destruct (Z.leb_spec start max_batch_size); [reflexivity | lia].
Qed.

(** With the values of the launch block the probe can report 482 at
    most. *)
Lemma probe_exhausts_grid_witness :
  res (find_max_batch_size loader_positive (threshold_attempt 1000)
         16 0 2 2 512 32 tt) = Ret 482.
Proof.
  apply (probe_exhausts_grid loader_positive (threshold_attempt 1000)
           16 0 2 2 512 32 tt).
  - lia.
  - lia.
  - apply loader_positive_ok. lia.
  - intros b w' _ Hb. apply threshold_below. lia.
  - vm_compute. discriminate.
Defined.

(** * The amended statements on concrete runtimes *)

Lemma find_max_batch_size_maximal_on_grid_witness :
  let o := find_max_batch_size loader_positive (threshold_attempt 40)
             100 0 2 2 512 32 tt in
  res o = Ret 34 /\
  on_grid 2 32 34 /\
  34 < 40 /\ 34 <= 512 /\ (34, None) ∈ attempts (trace o) /\
  (forall k, 0 <= k ->
     34 < 2 + k * 32 -> 2 + k * 32 <= 512 -> 40 <= 2 + k * 32) /\
  exists r, res o = Ret r.
Proof.
  destruct (find_max_batch_size_maximal_on_grid
              loader_positive (threshold_attempt 40) 40 100 0 2 2 512 32 tt
              (threshold_below 40) (threshold_above 40)) as [Hmax Hret].
  destruct (Hmax 34 eq_refl) as (Hgrid & Hfits & _ & Hnone).
  destruct Hfits as (Hlt & Hle & Hin); [lia | lia |].
  repeat split; try assumption; try reflexivity.
  apply Hret; [lia | apply loader_positive_ok; lia | lia].
Defined.

(** A whole run of [main] on rank 0: floor 2, maximum 512, stride 32,
    memory for sizes below 40, two epochs of two batches. *)
Example main_calls_on_success :
  calls (trace (main loader_positive (threshold_attempt 40) step_ok
                  two_batches 100 0 2 2 512 32 2 tt)) =
    [EvInitProcessGroup 0 2; EvSetDevice 0; EvInitializeModel 0;
     EvDummyDataset 1000; EvDistributedSampler false;
     EvDataLoader 2 None; EvAttempt 2 None;
     EvDataLoader 34 None; EvAttempt 34 None;
     EvDataLoader 66 None; EvAttempt 66 (Some cuda_oom);
     EvDestroyProcessGroup;
     EvInitProcessGroup 0 2; EvSetDevice 0; EvInitializeModel 0;
     EvDummyDataset 64000; EvDistributedSampler true;
     EvDataLoader 34 None; EvSGD;
     EvSetEpoch 0; EvTrainStep 0 0 None; EvTrainStep 0 1 None;
     EvSetEpoch 1; EvTrainStep 1 0 None; EvTrainStep 1 1 None;
     EvDestroyProcessGroup].
Proof. reflexivity. Qed.

Lemma main_phase_order_witness :
  exists v,
    calls (trace (main loader_positive (threshold_attempt 40) step_ok
                    two_batches 100 0 2 2 512 32 2 tt)) =
      [EvInitProcessGroup 0 2; EvSetDevice 0; EvInitializeModel 0] ++
      ([EvDummyDataset 1000; EvDistributedSampler false] ++
       concat (map probe_iteration
         (attempts (trace (find_max_batch_size loader_positive
                             (threshold_attempt 40) 100 0 2 2 512 32 tt))))) ++
      [EvDestroyProcessGroup;
       EvInitProcessGroup 0 2; EvSetDevice 0; EvInitializeModel 0] ++
      ([EvDummyDataset 64000; EvDistributedSampler true;
        EvDataLoader v None; EvSGD] ++
       training_events 2 (two_batches 2 v)) ++
      [EvDestroyProcessGroup] /\
    v = last_success 2
          (attempts (trace (find_max_batch_size loader_positive
                              (threshold_attempt 40) 100 0 2 2 512 32 tt))).
Proof.
  destruct (main_phase_order loader_positive (threshold_attempt 40) step_ok
              two_batches 100 0 2 2 512 32 2 tt tt eq_refl)
    as (v & Hcalls & _ & _ & _ & _ & _ & _ & Hv).
  exists v. split; [exact Hcalls | exact Hv].
Defined.

Lemma main_process_group_discipline_witness :
  pg_run false
    (trace (main loader_positive (threshold_attempt 40) step_ok two_batches
              100 0 2 2 512 32 5 tt)) = Some false /\
  pg_run false
    (trace (main loader_positive (threshold_attempt 40) (step_breaks 1)
              two_batches 100 0 2 2 512 32 5 tt)) = Some true.
Proof.
  split.
  - destruct (main_process_group_discipline loader_positive
                (threshold_attempt 40) step_ok two_batches
                100 0 2 2 512 32 5 tt) as [Hret _].
    apply (Hret tt). reflexivity.
  - destruct (main_process_group_discipline loader_positive
                (threshold_attempt 40) (step_breaks 1) two_batches
                100 0 2 2 512 32 5 tt) as [_ Hraise].
    apply (Hraise (EvTrainStep 1 0 (Some nccl_error)) nccl_error);
      [|reflexivity|reflexivity].
    apply list_elem_of_In. vm_compute. tauto.
Defined.
